(** * ssh-mcp: connection registry, authentication resolution and
      per-operation SSH sessions

    A shallow embedding of [src/ssh-client.ts] (class [SSHClientManager]),
    [src/config.ts] and the [remove_connection] / [get_config] handlers of
    [src/handlers.ts].

    Conventions of the embedding.
    - A JavaScript object that is shared and mutated in place (the
      connection records handed to [loadConnections]) lives in a [Heap]
      and is denoted by a reference; the registry stores references, as
      the [Map<string, SSHConnection>] of the source stores objects.
    - The [Map] is an association list in insertion order, because
      [listConnections] enumerates [connections.values()] in that order.
    - An optional property [p?: string] is an [option string]; the tests
      [if (x)], [x ? a : b] and [x || d] of the source are JavaScript
      truthiness tests, embedded by [truthy] and [orDefault].
    - The callbacks of an operation are run by the event loop one at a
      time; a session is a state and each callback a transition on it. *)

From Stdlib Require Import String Ascii List ZArith Bool Lia DecimalString.
Import ListNotations.
Open Scope string_scope.

(* ================================================================== *)
(** ** JavaScript values used by the program *)

(** [!!s] for a string: the empty string is falsy. *)
Definition nonEmpty (s : string) : bool := negb (s =? "").

(** [!!x] for an optional string property: [undefined] and [""] are falsy. *)
Definition truthy (o : option string) : bool :=
  match o with
  | Some s => nonEmpty s
  | None => false
  end.

(** [x || d] for an optional number: [undefined] and [0] are falsy. *)
Definition orDefault (o : option Z) (d : Z) : Z :=
  match o with
  | Some n => if (n =? 0)%Z then d else n
  | None => d
  end.

(** The replacement text of [String.prototype.replace] when the pattern is
    a regular expression without capture groups (GetSubstitution of the
    language specification): in the template, [$$] stands for a dollar,
    [$&] for the matched text, [$`] and [$'] for the text before and after
    the match; every other character, a lone dollar included, is copied. *)
Fixpoint getSubstitution (matched before after template : string) : string :=
  match template with
  | EmptyString => EmptyString
  | String c tl =>
      if Ascii.eqb c "$" then
        match tl with
        | String d rest =>
            if Ascii.eqb d "$" then String "$" (getSubstitution matched before after rest)
            else if Ascii.eqb d "&" then matched ++ getSubstitution matched before after rest
            else if Ascii.eqb d "`" then before ++ getSubstitution matched before after rest
            else if Ascii.eqb d "'" then after ++ getSubstitution matched before after rest
            else String c (getSubstitution matched before after tl)
        | EmptyString => String c EmptyString
        end
      else String c (getSubstitution matched before after tl)
  end.

(** [path.replace(/^~/, homedir())]: only a tilde in first position
    matches, and it matches once. *)
Definition expandTilde (home path : string) : string :=
  match path with
  | String c rest =>
      if Ascii.eqb c "~" then getSubstitution "~" "" rest home ++ rest else path
  | EmptyString => path
  end.

(* ================================================================== *)
(** ** Connection records ([interface SSHConnection]) *)

Inductive Source := SrcConfig | SrcEnv | SrcBinarylane.

(** [name], [host] and [username] are strings; a record parsed from JSON
    that lacks one of them is represented with [""], which the validity
    test of [loadConnections] treats alike.  [port] may be missing in a
    record that comes from the environment variable. *)
Record SSHConnection := mkConn {
  name : string;
  host : string;
  port : option Z;
  username : string;
  privateKeyPath : option string;
  password : option string;
  source : option Source
}.

Definition with_privateKeyPath (c : SSHConnection) (p : option string) : SSHConnection :=
  mkConn (name c) (host c) (port c) (username c) p (password c) (source c).

Definition with_port (c : SSHConnection) (p : option Z) : SSHConnection :=
  mkConn (name c) (host c) p (username c) (privateKeyPath c) (password c) (source c).

(** The negation of [!conn.name || !conn.host || !conn.username]. *)
Definition wellFormed (c : SSHConnection) : bool :=
  nonEmpty (name c) && nonEmpty (host c) && nonEmpty (username c).

(** The two in-place updates made on a record when it is accepted
    (also the body of [addConnection]):
    [if (conn.privateKeyPath) conn.privateKeyPath = conn.privateKeyPath.replace(/^~/, homedir());]
    [conn.port = conn.port || 22;] *)
Definition acceptUpdate (home : string) (c : SSHConnection) : SSHConnection :=
  let c1 :=
    if truthy (privateKeyPath c)
    then with_privateKeyPath c (option_map (expandTilde home) (privateKeyPath c))
    else c in
  with_port c1 (Some (orDefault (port c1) 22)).

(* ================================================================== *)
(** ** The heap of record objects and the registry [Map] *)

Definition Ref := nat.
Definition Heap := Ref -> SSHConnection.

Definition write (h : Heap) (r : Ref) (c : SSHConnection) : Heap :=
  fun r' => if Nat.eqb r' r then c else h r'.

(** [Map<string, SSHConnection>]: keys in insertion order. *)
Definition Registry := list (string * Ref).

Fixpoint map_has (m : Registry) (k : string) : bool :=
  match m with
  | [] => false
  | (k', _) :: m' => if k' =? k then true else map_has m' k
  end.

Fixpoint map_get (m : Registry) (k : string) : option Ref :=
  match m with
  | [] => None
  | (k', v) :: m' => if k' =? k then Some v else map_get m' k
  end.

(** [Map.prototype.set]: an existing key keeps its position and takes the
    new value, a new key goes last. *)
Fixpoint map_set (m : Registry) (k : string) (v : Ref) : Registry :=
  match m with
  | [] => [(k, v)]
  | (k', v') :: m' => if k' =? k then (k', v) :: m' else (k', v') :: map_set m' k v
  end.

(** [Map.prototype.delete]: the map without the key, and whether the key
    was there. *)
Fixpoint map_delete (m : Registry) (k : string) : Registry * bool :=
  match m with
  | [] => ([], false)
  | (k', v') :: m' =>
      if k' =? k then (m', true)
      else let (m'', b) := map_delete m' k in ((k', v') :: m'', b)
  end.

Definition map_keys (m : Registry) : list string := map fst m.
Definition map_values (m : Registry) : list Ref := map snd m.

(** What [console.error] printed. *)
Inductive Diagnostic :=
| InvalidConnectionConfig (r : Ref)
| Loaded (size : nat).

(** The state of the manager: the objects, the private [connections] map,
    and the console. *)
Record Manager := mkManager {
  heap : Heap;
  connections : Registry;
  console : list Diagnostic
}.

(* ================================================================== *)
(** ** [class SSHClientManager]: the registry operations *)

Section Registry.

Variable home : string.   (* the value of [homedir()] *)

(** The body of the inner loop of [loadConnections], for one record. *)
Definition loadOne (st : Manager) (r : Ref) : Manager :=
  let conn := heap st r in
  if negb (wellFormed conn) then
    mkManager (heap st) (connections st) (console st ++ [InvalidConnectionConfig r])
  else if map_has (connections st) (name conn) then st
  else
    mkManager (write (heap st) r (acceptUpdate home conn))
              (map_set (connections st) (name conn) r)
              (console st).

Definition loadConnections (sources : list (list Ref)) (st : Manager) : Manager :=
  let cleared := mkManager (heap st) [] (console st) in
  let st' := fold_left (fun s connectionList => fold_left loadOne connectionList s)
                       sources cleared in
  mkManager (heap st') (connections st')
            (console st' ++ [Loaded (length (connections st'))]).

Definition addConnection (r : Ref) (st : Manager) : Manager :=
  let conn := acceptUpdate home (heap st r) in
  mkManager (write (heap st) r conn) (map_set (connections st) (name conn) r) (console st).

Definition removeConnection (nm : string) (st : Manager) : Manager * bool :=
  let (m, b) := map_delete (connections st) nm in
  (mkManager (heap st) m (console st), b).

Record ConnectionInfo := mkInfo {
  info_name : string;
  info_host : string;
  info_port : option Z;
  info_username : string;
  info_source : option Source
}.

Definition listConnections (st : Manager) : list ConnectionInfo :=
  map (fun r => let conn := heap st r in
                mkInfo (name conn) (host conn) (port conn) (username conn) (source conn))
      (map_values (connections st)).

Definition getConnection (st : Manager) (nm : string) : option Ref :=
  map_get (connections st) nm.

End Registry.

(* ================================================================== *)
(** ** The platform: [os], [path], [fs] and the [ssh2] client *)

(** [ConnectConfig] of [ssh2], as far as the program fills it. *)
Record ConnectConfig := mkConnectConfig {
  config_host : string;
  config_port : option Z;
  config_username : string;
  config_privateKey : option string;
  config_password : option string
}.

Inductive FsEntry :=
| NoEntry
| Unreadable (why : string)     (* the path exists, reading it throws *)
| File (content : string).

(** [join] is [path.join]; [connectThrows] tells whether [client.connect]
    throws synchronously on a configuration (as [ssh2] does for a key it
    cannot parse), and with which message. *)
Record Os := mkOs {
  homedir : string;
  join : list string -> string;
  fs : string -> FsEntry;
  connectThrows : ConnectConfig -> option string
}.

(** The errors the program raises itself, and the ones it passes on. *)
Inductive Err :=
| UnknownConnection (nm : string) (hint : bool)
| PrivateKeyNotFound (path : string)
| NoAuthenticationMethod
| LocalFileNotFound (path : string)
| CommandTimedOut (timeout : Z)
| LibraryError (msg : string).

Definition showZ (n : Z) : string := NilZero.string_of_int (Z.to_int n).

(** A number inside a template literal. *)
Definition showPort (p : option Z) : string :=
  match p with
  | Some n => showZ n
  | None => "undefined"
  end.

(** [error.message] *)
Definition message (e : Err) : string :=
  match e with
  | UnknownConnection nm hint =>
      "Unknown connection: " ++ nm ++
      (if hint then ". Use list_connections to see available connections." else "")
  | PrivateKeyNotFound p => "Private key not found: " ++ p
  | NoAuthenticationMethod =>
      "No authentication method available. Provide privateKeyPath or password."
  | LocalFileNotFound p => "Local file not found: " ++ p
  | CommandTimedOut t => "Command timed out after " ++ showZ t ++ "ms"
  | LibraryError msg => msg
  end.

Inductive Result (A : Type) :=
| Ok (a : A)
| Throw (e : Err).
Arguments Ok {A} a.
Arguments Throw {A} e.

Definition existsSync (os : Os) (p : string) : bool :=
  match fs os p with
  | NoEntry => false
  | _ => true
  end.

Definition readFileSync (os : Os) (p : string) : Result string :=
  match fs os p with
  | File content => Ok content
  | Unreadable why => Throw (LibraryError why)
  | NoEntry => Throw (LibraryError ("ENOENT: no such file or directory, open '" ++ p ++ "'"))
  end.

(* ================================================================== *)
(** ** Authentication resolution ([getConnectConfig]) *)

Definition defaultKeys (os : Os) : list string :=
  [ join os [homedir os; ".ssh"; "id_ed25519"];
    join os [homedir os; ".ssh"; "id_rsa"] ].

(** The [for (const keyPath of defaultKeys)] loop: the key read from the
    first path that exists, if any. *)
Fixpoint probeKeys (os : Os) (keys : list string) : Result (option string) :=
  match keys with
  | [] => Ok None
  | keyPath :: keys' =>
      if existsSync os keyPath then
        match readFileSync os keyPath with
        | Ok key => Ok (Some key)
        | Throw e => Throw e
        end
      else probeKeys os keys'
  end.

Definition getConnectConfig (os : Os) (conn : SSHConnection) : Result ConnectConfig :=
  let config key pw := mkConnectConfig (host conn) (port conn) (username conn) key pw in
  if truthy (privateKeyPath conn) then
    let p := match privateKeyPath conn with Some p => p | None => "" end in
    if negb (existsSync os p) then Throw (PrivateKeyNotFound p)
    else match readFileSync os p with
         | Ok key => Ok (config (Some key) None)
         | Throw e => Throw e
         end
  else if truthy (password conn) then Ok (config None (password conn))
  else
    match probeKeys os (defaultKeys os) with
    | Throw e => Throw e
    | Ok (Some key) => Ok (config (Some key) None)
    | Ok None => Throw NoAuthenticationMethod
    end.

(* ================================================================== *)
(** ** One session per operation *)

Inductive Op :=
| RunCommand (command : string) (timeout : Z)
| UploadFile (localPath remotePath : string)
| DownloadFile (remotePath localPath : string)
| ReadFile (remotePath : string)
| ListDirectory (remotePath : string)
| TestConnection.

(** An entry as [sftp.readdir] reports it, and as [listDirectory] returns it. *)
Record RawEntry := mkRaw {
  filename : string;
  isDirectory : bool;
  isFile : bool;
  size : Z;
  mtime : Z
}.

Record DirEntry := mkEntry {
  entry_name : string;
  entry_type : string;
  entry_size : Z;
  entry_modifyTime : Z      (* milliseconds since the epoch *)
}.

Definition toDirEntry (item : RawEntry) : DirEntry :=
  mkEntry (filename item)
          (if isDirectory item then "directory" else if isFile item then "file" else "other")
          (size item)
          (mtime item * 1000)%Z.

(** The values a promise of the manager resolves with. *)
Inductive Outcome :=
| CommandResult (stdout stderr : string) (code : Z)
| Transfer (success : bool) (msg : string)
| FileContent (content : string)
| Listing (entries : list DirEntry)
| TestResult (success : bool) (msg : string) (latencyMs : option Z).

Inductive Promise :=
| Pending
| Resolved (v : Outcome)
| Rejected (e : Err).

(** The watchdog of [setTimeout]: [Armed d] fires [d] ms after the session
    started. *)
Inductive Timer :=
| NoTimer
| Armed (deadline : Z)
| Cleared
| Fired.

(** Which callbacks the transport may still call. *)
Inductive Phase :=
| Connecting     (* awaiting 'ready' *)
| Requested      (* [exec] or [sftp] was called, its callback is due *)
| Active         (* the stream, transfer or listing is in progress *)
| Finished.

(** What the transport delivers to a session. *)
Inductive Event :=
| EvReady
| EvError (msg : string)                      (* client 'error' *)
| EvExec (err : option string)                (* callback of [client.exec] *)
| EvStdout (data : string)
| EvStderr (data : string)
| EvClose (code : option Z)                   (* stream 'close' *)
| EvSftp (err : option string)                (* callback of [client.sftp] *)
| EvTransferred (err : option string)         (* callback of [fastPut] / [fastGet] *)
| EvChunk (chunk : string)                    (* read stream 'data' *)
| EvEnd                                       (* read stream 'end' *)
| EvReadError (msg : string)                  (* read stream 'error' *)
| EvReaddir (res : string + list RawEntry).   (* callback of [sftp.readdir] *)

(** The session: the promise, the watchdog, the client ([connected]: its
    [connect] was called; [ends]: how often its [end] was called), the
    text accumulated so far, and the clock ([now], in ms since the
    operation started; [settledAt] is the time the promise settled). *)
Record Session := mkSession {
  promise : Promise;
  timer : Timer;
  connected : bool;
  ends : nat;
  phase : Phase;
  out : string;
  errOut : string;
  now : Z;
  settledAt : option Z
}.

Definition with_promise (p : Promise) (t : option Z) (s : Session) : Session :=
  mkSession p (timer s) (connected s) (ends s) (phase s) (out s) (errOut s) (now s) t.
Definition with_timer (t : Timer) (s : Session) : Session :=
  mkSession (promise s) t (connected s) (ends s) (phase s) (out s) (errOut s) (now s) (settledAt s).
Definition with_connected (b : bool) (s : Session) : Session :=
  mkSession (promise s) (timer s) b (ends s) (phase s) (out s) (errOut s) (now s) (settledAt s).
Definition with_phase (p : Phase) (s : Session) : Session :=
  mkSession (promise s) (timer s) (connected s) (ends s) p (out s) (errOut s) (now s) (settledAt s).
Definition with_out (o : string) (s : Session) : Session :=
  mkSession (promise s) (timer s) (connected s) (ends s) (phase s) o (errOut s) (now s) (settledAt s).
Definition with_errOut (o : string) (s : Session) : Session :=
  mkSession (promise s) (timer s) (connected s) (ends s) (phase s) (out s) o (now s) (settledAt s).
Definition with_now (t : Z) (s : Session) : Session :=
  mkSession (promise s) (timer s) (connected s) (ends s) (phase s) (out s) (errOut s) t (settledAt s).

(** [resolve] and [reject] settle a promise once; later calls do nothing. *)
Definition settle (p : Promise) (s : Session) : Session :=
  match promise s with
  | Pending => with_promise p (Some (now s)) s
  | _ => s
  end.
Definition resolve (v : Outcome) : Session -> Session := settle (Resolved v).
Definition reject (e : Err) : Session -> Session := settle (Rejected e).

Definition clearTimeout (s : Session) : Session :=
  match timer s with
  | Armed _ => with_timer Cleared s
  | _ => s
  end.

(** [client.end()] *)
Definition client_end (s : Session) : Session :=
  mkSession (promise s) (timer s) (connected s) (S (ends s)) (phase s)
            (out s) (errOut s) (now s) (settledAt s).

(** The delay [setTimeout] really uses: a delay below 1 or above
    2^31 - 1 is replaced by 1. *)
Definition timerDelay (t : Z) : Z :=
  if ((1 <=? t) && (t <=? 2147483647))%Z then t else 1%Z.

(** [Date.now()] when the operation is called: the origin of the clock. *)
Definition startTime : Z := 0.

Definition newSession : Session :=
  mkSession Pending NoTimer false 0 Connecting "" "" 0 None.

(** The [catch] block around [getConnectConfig] and [client.connect]. *)
Definition onConfigError (op : Op) (e : Err) (s : Session) : Session :=
  match op with
  | RunCommand _ _ => reject e (clearTimeout s)
  | TestConnection =>
      resolve (TestResult false ("Configuration error: " ++ message e) None) (clearTimeout s)
  | _ => reject e s
  end.

(** The body of [new Promise((resolve, reject) => ...)]: the client is
    created, the watchdog armed where the operation has one, the handlers
    registered, and the connection attempted. *)
Definition openSession (os : Os) (op : Op) (conn : SSHConnection) : Session :=
  let s :=
    match op with
    | RunCommand _ timeout => with_timer (Armed (timerDelay timeout)) newSession
    | TestConnection => with_timer (Armed 10000) newSession
    | _ => newSession
    end in
  match getConnectConfig os conn with
  | Throw e => onConfigError op e s
  | Ok config =>
      match connectThrows os config with
      | Some msg => onConfigError op (LibraryError msg) s
      | None => with_connected true s
      end
  end.

(** A promise of an [async] method that threw before creating its client. *)
Definition thrown (e : Err) : Session := reject e newSession.

(** The part of each operation that runs at the call. *)
Definition start (os : Os) (st : Manager) (op : Op) (connectionName : string) : Session :=
  match getConnection st connectionName with
  | None =>
      thrown (UnknownConnection connectionName
                (match op with RunCommand _ _ => true | _ => false end))
  | Some r =>
      match op with
      | UploadFile localPath _ =>
          if negb (existsSync os localPath) then thrown (LocalFileNotFound localPath)
          else openSession os op (heap st r)
      | _ => openSession os op (heap st r)
      end
  end.

Definition libErr (msg : string) : Err := LibraryError msg.

(** The callback given to [setTimeout]; it runs only while the watchdog
    is armed. *)
Definition expire (op : Op) (s : Session) : Session :=
  match timer s with
  | Armed _ =>
      let s := with_timer Fired s in
      match op with
      | RunCommand _ timeout => reject (CommandTimedOut timeout) (client_end s)
      | TestConnection =>
          resolve (TestResult false "Connection timed out" None) (client_end s)
      | _ => s
      end
  | _ => s
  end.

(** The callbacks of the transport.  One runs only if the client was
    connected and the callback is due in the present phase. *)
Definition handle (op : Op) (conn : SSHConnection) (s : Session) (ev : Event) : Session :=
  if negb (connected s) then s else
  match ev, op, phase s with
  (* client.on('error', ...) *)
  | EvError msg, RunCommand _ _, _ => reject (libErr msg) (clearTimeout s)
  | EvError msg, TestConnection, _ =>
      resolve (TestResult false ("Connection failed: " ++ msg) None) (clearTimeout s)
  | EvError msg, _, _ => reject (libErr msg) s
  (* client.on('ready', ...) *)
  | EvReady, TestConnection, Connecting =>
      let s := clearTimeout s in
      let latencyMs := (now s - startTime)%Z in
      let s := client_end s in
      with_phase Finished
        (resolve (TestResult true
                    ("Connected successfully to " ++ host conn ++ ":" ++
                     showPort (port conn))
                    (Some latencyMs)) s)
  | EvReady, _, Connecting => with_phase Requested s
  (* runCommand *)
  | EvExec (Some err), RunCommand _ _, Requested =>
      with_phase Finished (reject (libErr err) (client_end (clearTimeout s)))
  | EvExec None, RunCommand _ _, Requested => with_phase Active s
  | EvStdout data, RunCommand _ _, Active => with_out (out s ++ data) s
  | EvStderr data, RunCommand _ _, Active => with_errOut (errOut s ++ data) s
  | EvClose code, RunCommand _ _, Active =>
      let s := client_end (clearTimeout s) in
      with_phase Finished
        (resolve (CommandResult (out s) (errOut s) (orDefault code 0)) s)
  (* the SFTP operations *)
  | EvSftp (Some err), (UploadFile _ _ | DownloadFile _ _ | ReadFile _ | ListDirectory _),
    Requested =>
      with_phase Finished (reject (libErr err) (client_end s))
  | EvSftp None, (UploadFile _ _ | DownloadFile _ _ | ReadFile _ | ListDirectory _),
    Requested =>
      with_phase Active s
  | EvTransferred err, UploadFile localPath remotePath, Active =>
      let s := client_end s in
      with_phase Finished
        match err with
        | Some e => reject (libErr e) s
        | None =>
            resolve (Transfer true ("Uploaded " ++ localPath ++ " to " ++ remotePath)) s
        end
  | EvTransferred err, DownloadFile remotePath localPath, Active =>
      let s := client_end s in
      with_phase Finished
        match err with
        | Some e => reject (libErr e) s
        | None =>
            resolve (Transfer true ("Downloaded " ++ remotePath ++ " to " ++ localPath)) s
        end
  | EvChunk chunk, ReadFile _, Active => with_out (out s ++ chunk) s
  | EvEnd, ReadFile _, Active =>
      let s := client_end s in
      with_phase Finished (resolve (FileContent (out s)) s)
  | EvReadError msg, ReadFile _, Active =>
      with_phase Finished (reject (libErr msg) (client_end s))
  | EvReaddir res, ListDirectory _, Active =>
      let s := client_end s in
      with_phase Finished
        match res with
        | inl err => reject (libErr err) s
        | inr list => resolve (Listing (map toDirEntry list)) s
        end
  | _, _, _ => s
  end.

(** Time passes to [t]: the watchdog fires on the way if it is due. *)
Definition advance (op : Op) (conn : SSHConnection) (t : Z) (s : Session) : Session :=
  let s1 :=
    match timer s with
    | Armed d =>
        if (d <=? t)%Z then expire op (with_now (Z.max (now s) d) s) else s
    | _ => s
    end in
  with_now (Z.max (now s1) t) s1.

(** Events with the time at which each is delivered. *)
Fixpoint runTimed (op : Op) (conn : SSHConnection) (s : Session)
                  (events : list (Z * Event)) : Session :=
  match events with
  | [] => s
  | (t, ev) :: events' => runTimed op conn (handle op conn (advance op conn t s) ev) events'
  end.

(** The record an operation works on ([conn] of the source); an unknown
    name never gets as far as using it. *)
Definition connOf (st : Manager) (connectionName : string) : SSHConnection :=
  match getConnection st connectionName with
  | Some r => heap st r
  | None => mkConn "" "" None "" None None None
  end.

(** An operation, from its call to the state reached when the transport
    has delivered [events] and the clock shows [until]. *)
Definition operate (os : Os) (st : Manager) (op : Op) (connectionName : string)
                   (events : list (Z * Event)) (until : Z) : Session :=
  let conn := connOf st connectionName in
  advance op conn until (runTimed op conn (start os st op connectionName) events).

(** [timeout: number = 30000]: a caller that gives none gets 30000 ms. *)
Definition timeoutOr30000 (timeout : option Z) : Z :=
  match timeout with
  | Some t => t
  | None => 30000%Z
  end.

Definition runCommand os st connectionName command timeout :=
  operate os st (RunCommand command (timeoutOr30000 timeout)) connectionName.
Definition uploadFile os st connectionName localPath remotePath :=
  operate os st (UploadFile localPath remotePath) connectionName.
Definition downloadFile os st connectionName remotePath localPath :=
  operate os st (DownloadFile remotePath localPath) connectionName.
Definition readFile os st connectionName remotePath :=
  operate os st (ReadFile remotePath) connectionName.
Definition listDirectory os st connectionName remotePath :=
  operate os st (ListDirectory remotePath) connectionName.
Definition testConnection os st connectionName :=
  operate os st TestConnection connectionName.

(* ================================================================== *)
(** ** [config.ts]: the persistent configuration *)

Record BinaryLaneConfig := mkBinaryLane {
  enabled : bool;
  apiToken : option string;
  defaultUsername : string;
  bl_defaultPrivateKeyPath : option string
}.

Record ConnectionConfig := mkConnectionConfig {
  cc_name : string;
  cc_host : string;
  cc_port : option Z;
  cc_username : string;
  cc_privateKeyPath : option string;
  cc_password : option string
}.

Record SSHMCPConfig := mkConfig {
  defaultPrivateKeyPath : option string;
  binarylane : BinaryLaneConfig;
  cfg_connections : list ConnectionConfig
}.

Definition DEFAULT_CONFIG : SSHMCPConfig :=
  mkConfig (Some "~/.ssh/id_ed25519")
           (mkBinaryLane true None "root" (Some "~/.ssh/id_ed25519"))
           [].

(** What [JSON.parse] finds in the file ([Partial<SSHMCPConfig>]). *)
Record PartialBinaryLane := mkPartialBL {
  p_enabled : option bool;
  p_apiToken : option string;
  p_defaultUsername : option string;
  p_blDefaultPrivateKeyPath : option string
}.

Record PartialConfig := mkPartial {
  p_defaultPrivateKeyPath : option string;
  p_binarylane : option PartialBinaryLane;
  p_connections : option (list ConnectionConfig)
}.

Inductive ConfigFile :=
| Missing
| Unparsable
| Parsed (p : PartialConfig).

(** [JSON.stringify] followed by [JSON.parse]: what a saved configuration
    reads back as. *)
Definition stored (config : SSHMCPConfig) : ConfigFile :=
  let bl := binarylane config in
  Parsed (mkPartial (defaultPrivateKeyPath config)
            (Some (mkPartialBL (Some (enabled bl)) (apiToken bl)
                               (Some (defaultUsername bl)) (bl_defaultPrivateKeyPath bl)))
            (Some (cfg_connections config))).

Definition saveConfig (config : SSHMCPConfig) (disk : ConfigFile) : ConfigFile :=
  stored config.

Definition orElse {A} (o : option A) (d : A) : A :=
  match o with
  | Some a => a
  | None => d
  end.

Definition firstSome {A} (o d : option A) : option A :=
  match o with
  | Some a => Some a
  | None => d
  end.

(** [loadConfig]: the configuration, and the file afterwards (a missing
    file is created with the defaults). *)
Definition loadConfig (disk : ConfigFile) : SSHMCPConfig * ConfigFile :=
  match disk with
  | Missing => (DEFAULT_CONFIG, saveConfig DEFAULT_CONFIG disk)
  | Unparsable => (DEFAULT_CONFIG, disk)
  | Parsed parsed =>
      let d := binarylane DEFAULT_CONFIG in
      let bl :=
        match p_binarylane parsed with
        | None => d
        | Some b =>
            mkBinaryLane (orElse (p_enabled b) (enabled d))
                         (firstSome (p_apiToken b) (apiToken d))
                         (orElse (p_defaultUsername b) (defaultUsername d))
                         (firstSome (p_blDefaultPrivateKeyPath b) (bl_defaultPrivateKeyPath d))
        end in
      (mkConfig (firstSome (p_defaultPrivateKeyPath parsed)
                           (defaultPrivateKeyPath DEFAULT_CONFIG))
                bl
                (orElse (p_connections parsed) []),
       disk)
  end.

Definition named (nm : string) (c : ConnectionConfig) : bool := cc_name c =? nm.

Definition addConnectionToConfig (config : SSHMCPConfig) (conn : ConnectionConfig)
                                 (disk : ConfigFile) : SSHMCPConfig * ConfigFile :=
  let updated :=
    mkConfig (defaultPrivateKeyPath config) (binarylane config)
             (filter (fun c => negb (named (cc_name conn) c)) (cfg_connections config) ++ [conn]) in
  (updated, saveConfig updated disk).

(** [null] is [None]. *)
Definition removeConnectionFromConfig (config : SSHMCPConfig) (nm : string)
                                      (disk : ConfigFile) : option SSHMCPConfig * ConfigFile :=
  let exists_ := existsb (named nm) (cfg_connections config) in
  if negb exists_ then (None, disk)
  else
    let updated :=
      mkConfig (defaultPrivateKeyPath config) (binarylane config)
               (filter (fun c => negb (named nm c)) (cfg_connections config)) in
    (Some updated, saveConfig updated disk).

(** [x ? '***' : undefined] *)
Definition redactSecret (secret : option string) : option string :=
  if truthy secret then Some "***" else None.

Definition redactConfig (config : SSHMCPConfig) : SSHMCPConfig :=
  let bl := binarylane config in
  mkConfig (defaultPrivateKeyPath config)
           (mkBinaryLane (enabled bl) (redactSecret (apiToken bl))
                         (defaultUsername bl) (bl_defaultPrivateKeyPath bl))
           (map (fun c => mkConnectionConfig (cc_name c) (cc_host c) (cc_port c)
                            (cc_username c) (cc_privateKeyPath c)
                            (redactSecret (cc_password c)))
                (cfg_connections config)).

(* ================================================================== *)
(** ** [handlers.ts]: [remove_connection] and [get_config] *)

(** The process: the configuration file and the manager. *)
Record World := mkWorld {
  disk : ConfigFile;
  manager : Manager
}.

Record Reply := mkReply {
  success : bool;
  reply_message : string
}.

Definition getConfigPath (os : Os) : string :=
  join os [join os [homedir os; ".config"; "ssh-mcp"]; "connections.json"].

(** The arguments of [remove_connection], as far as they have the type
    the schema asks for. *)
Record RemoveConnectionArgs := mkRemoveArgs {
  remove_name : option string
}.

(** [removeConnectionSchema.parse]: the name must be there and not
    empty, else the parse throws ([None]). *)
Definition removeConnectionSchema (args : RemoveConnectionArgs) : option string :=
  match remove_name args with
  | Some n => if nonEmpty n then Some n else None
  | None => None
  end.

Section Handlers.

Variable os : Os.

(** [ctx?.reloadConnections]: the reload of [index.ts], which reads the
    file, the environment and the discovery service and calls
    [loadConnections]; a handler called without context has none. *)
Variable reloadConnections : option (World -> World).

Definition reload (w : World) : World :=
  match reloadConnections with
  | Some f => f w
  | None => w
  end.

(** [None]: the schema rejected the arguments and the handler threw
    before doing anything. *)
Definition remove_connection (args : RemoveConnectionArgs) (w : World)
  : option (World * Reply) :=
  match removeConnectionSchema args with
  | None => None
  | Some nm =>
      let (config, disk1) := loadConfig (disk w) in
      let (updated, disk2) := removeConnectionFromConfig config nm disk1 in
      match updated with
      | None =>
          Some (mkWorld disk2 (manager w),
                mkReply false ("Connection '" ++ nm ++
                  "' not found in config file. Only manually added connections can be removed."))
      | Some _ =>
          Some (reload (mkWorld disk2 (manager w)),
                mkReply true ("Connection '" ++ nm ++ "' removed from " ++ getConfigPath os))
      end
  end.

Definition get_config (w : World) : World * (string * SSHMCPConfig) :=
  let (config, disk1) := loadConfig (disk w) in
  (mkWorld disk1 (manager w), (getConfigPath os, redactConfig config)).

End Handlers.

(* ================================================================== *)
(** ** The notions the properties are stated with *)

(** The merge in the words of the specification: the records are visited
    in order, and a record is accepted exactly when its [name], [host] and
    [username] are non-empty and no record of that name was accepted before;
    [seen] holds the names accepted so far. *)
Fixpoint accepted (h : Heap) (seen : list string) (refs : list Ref) : list Ref :=
  match refs with
  | [] => []
  | r :: refs' =>
      if wellFormed (h r) && negb (existsb (String.eqb (name (h r))) seen)
      then r :: accepted h (seen ++ [name (h r)]) refs'
      else accepted h seen refs'
  end.

(** Membership among references. *)
Definition memRef (r : Ref) (l : list Ref) : bool := existsb (Nat.eqb r) l.

(** The entry of the map for the object [r]. *)
Definition entry (h : Heap) (r : Ref) : string * Ref := (name (h r), r).

(** Two heaps that give every record the same name and the same validity
    select the same records. *)
Definition sameKeys (h1 h2 : Heap) : Prop :=
  forall r, name (h1 r) = name (h2 r) /\ wellFormed (h1 r) = wellFormed (h2 r).

(** A home directory whose first character is neither a tilde nor a
    dollar (an absolute path, for one). *)
Definition plainHome (home : string) : bool :=
  match home with
  | String c _ => negb (Ascii.eqb c "~") && negb (Ascii.eqb c "$")
  | EmptyString => false
  end.

(** [S] defines the connection [x] by the record [r]: [r] is the first
    record of [S] named [x] that passes the validity test. *)
Definition defines (h : Heap) (S : list Ref) (x : string) (r : Ref) : Prop :=
  find (fun r => wellFormed (h r) && (name (h r) =? x)) S = Some r.

(** The resolution in the words of the specification: which credential
    is presented, or why none is. *)
Inductive Credential :=
| KeyFile (path : string)
| PasswordOf (pw : string).

(** Why no credential is presented. *)
Inductive AuthFailure :=
| KeyNotFound (path : string)
| NoAuthenticationAvailable.

(** A property is set when it holds a non-empty string. *)
Definition isSet (o : option string) : option string :=
  match o with
  | Some s => if nonEmpty s then Some s else None
  | None => None
  end.

(** 1. a private-key path that is set must exist; 2. else a password that
    is set is used; 3. else the default locations are probed in order,
    the ed25519 key before the RSA key, in the SSH directory of the user,
    and the first that exists is used; 4. else no authentication is
    available. *)
Definition resolveAuth (os : Os) (conn : SSHConnection) : Credential + AuthFailure :=
  match isSet (privateKeyPath conn) with
  | Some p => if existsSync os p then inl (KeyFile p) else inr (KeyNotFound p)
  | None =>
      match isSet (password conn) with
      | Some pw => inl (PasswordOf pw)
      | None =>
          match find (existsSync os)
                     [ join os [homedir os; ".ssh"; "id_ed25519"];
                       join os [homedir os; ".ssh"; "id_rsa"] ] with
          | Some keyPath => inl (KeyFile keyPath)
          | None => inr NoAuthenticationAvailable
          end
      end
  end.

(** What of a connection, and of a configuration, is not secret: every
    field but the password and the API token, and of these two only
    whether they hold a non-empty string. *)
Definition publicConnection (c : ConnectionConfig) :=
  (cc_name c, cc_host c, cc_port c, cc_username c, cc_privateKeyPath c,
   truthy (cc_password c)).

Definition publicView (config : SSHMCPConfig) :=
  (defaultPrivateKeyPath config, enabled (binarylane config),
   truthy (apiToken (binarylane config)), defaultUsername (binarylane config),
   bl_defaultPrivateKeyPath (binarylane config),
   map publicConnection (cfg_connections config)).

(** The promise is no longer pending. *)
Definition settled (s : Session) : bool :=
  match promise s with
  | Pending => false
  | _ => true
  end.

(** The client's 'error' event. *)
Definition isError (ev : Event) : bool :=
  match ev with
  | EvError _ => true
  | _ => false
  end.

(** The deadline of the watchdog of an operation, if it has one. *)
Definition deadlineOf (op : Op) : option Z :=
  match op with
  | RunCommand _ timeout => Some (timerDelay timeout)
  | TestConnection => Some 10000%Z
  | _ => None
  end.

(** While the call is pending its watchdog is armed and not yet due; once
    the call has settled, at or before the deadline, the watchdog is no
    longer armed. *)
Definition watched (d : Z) (s : Session) : Prop :=
  match promise s with
  | Pending => timer s = Armed d /\ (now s <= d)%Z /\ settledAt s = None
  | _ => (forall d', timer s <> Armed d') /\
         exists t, settledAt s = Some t /\ (t <= d)%Z
  end.

(** A watchdog that fired found [runCommand] pending: it ended the client
    and rejected the call; a call that resolved had disarmed it. *)
Definition firedRight (timeout : Z) (s : Session) : Prop :=
  match timer s with
  | Fired => promise s = Rejected (CommandTimedOut timeout) /\ 1 <= ends s /\
             settledAt s = Some (timerDelay timeout)
  | Armed _ => promise s = Pending
  | Cleared => True
  | NoTimer => exists e, promise s = Rejected e
  end /\
  match promise s with
  | Resolved _ => timer s = Cleared
  | _ => True
  end.

(** [testConnection] never rejects, and resolves with a report. *)
Definition reports (s : Session) : Prop :=
  match promise s with
  | Pending => True
  | Resolved (TestResult _ _ _) => True
  | _ => False
  end.

(** A connected client whose call has settled was ended. *)
Definition tornDown (s : Session) : Prop :=
  settled s = true -> connected s = true -> 1 <= ends s.

(* ================================================================== *)
(** ** Concrete inputs *)

(** Four records. *)
Definition web1 : SSHConnection :=
  mkConn "web1" "192.168.1.10" None "root" (Some "~/.ssh/id_rsa") None (Some SrcConfig).
Definition web1_env : SSHConnection :=
  mkConn "web1" "10.0.0.9" (Some 2222%Z) "admin" None (Some "secret") (Some SrcEnv).
Definition nohost : SSHConnection :=
  mkConn "db1" "" (Some 22%Z) "admin" None None (Some SrcEnv).
Definition db1 : SSHConnection :=
  mkConn "db1" "192.168.1.11" (Some 0%Z) "admin" None (Some "secret") (Some SrcBinarylane).

(** The four objects: a manual record, an environment record of the same
    name, a malformed record, and a discovered one. *)
Definition sampleHeap : Heap :=
  fun r => match r with
           | 0 => web1
           | 1 => web1_env
           | 2 => nohost
           | _ => db1
           end.

Definition sampleManager : Manager := mkManager sampleHeap [] [].

(** The registry after the sample sources were merged: web1 with a key
    that exists, db1 with a password. *)
Definition loaded : Manager :=
  loadConnections "/home/u" [[0]; [1; 2]; [3]] sampleManager.

(** A registry that holds one record, which came from the environment. *)
Definition envOnly : Manager := mkManager sampleHeap [("web1", 1)] [].

(** A platform with one RSA key and one deployment key. *)
Definition sampleFs (p : string) : FsEntry :=
  if p =? "/home/u/.ssh/id_rsa" then File "RSA PRIVATE KEY"
  else if p =? "/home/u/.ssh/deploy_key" then File "DEPLOY KEY"
  else if p =? "/tmp/report.txt" then File "report"
  else NoEntry.

Definition sampleOs : Os :=
  mkOs "/home/u" (String.concat "/") sampleFs (fun _ => None).

(** A configuration file with one manual connection. *)
Definition sampleConfig : SSHMCPConfig :=
  mkConfig None (mkBinaryLane true (Some "bl-token") "root" None)
           [mkConnectionConfig "staging" "10.0.0.5" (Some 22%Z) "deploy"
                               (Some "~/.ssh/deploy_key") None].

Definition sampleWorld : World := mkWorld (stored sampleConfig) envOnly.

(** Two configurations that differ only in the value of a password that
    is present in both: empty in one, not in the other. *)
Definition emptyPassword : SSHMCPConfig :=
  mkConfig None (mkBinaryLane true (Some "") "root" None)
           [mkConnectionConfig "db1" "192.168.1.11" (Some 22%Z) "admin" None (Some "")].

Definition realPassword : SSHMCPConfig :=
  mkConfig None (mkBinaryLane true (Some "") "root" None)
           [mkConnectionConfig "db1" "192.168.1.11" (Some 22%Z) "admin" None (Some "hunter2")].

(* ================================================================== *)
(** ** The registry over a sequence of calls *)

(** [new SSHClientManager()]: the map is empty. *)
Definition newManager (h : Heap) : Manager := mkManager h [] [].

(** The three methods that change the registry. *)
Inductive RegistryCall :=
| CallLoad (sources : list (list Ref))
| CallAdd (r : Ref)
| CallRemove (nm : string).

Definition call (home : string) (st : Manager) (c : RegistryCall) : Manager :=
  match c with
  | CallLoad sources => loadConnections home sources st
  | CallAdd r => addConnection home r st
  | CallRemove nm => fst (removeConnection nm st)
  end.

(** The keys of the map are pairwise different, and each object is filed
    under its own name. *)
Definition consistent (st : Manager) : Prop :=
  NoDup (map_keys (connections st)) /\
  forall k r, In (k, r) (connections st) -> name (heap st r) = k.


(* ================================================================== *)
(** ** What the transport sent, for stating what an operation returns *)

(** The text of the 'data' events of the command's output stream, and of
    its error stream, in the order of arrival. *)
Fixpoint stdoutText (events : list (Z * Event)) : string :=
  match events with
  | [] => ""
  | (_, EvStdout data) :: events' => data ++ stdoutText events'
  | _ :: events' => stdoutText events'
  end.

Fixpoint stderrText (events : list (Z * Event)) : string :=
  match events with
  | [] => ""
  | (_, EvStderr data) :: events' => data ++ stderrText events'
  | _ :: events' => stderrText events'
  end.

(** The text of the 'data' events of a read stream. *)
Fixpoint chunkText (events : list (Z * Event)) : string :=
  match events with
  | [] => ""
  | (_, EvChunk chunk) :: events' => chunk ++ chunkText events'
  | _ :: events' => chunkText events'
  end.

Definition isOutput (ev : Event) : bool :=
  match ev with
  | EvStdout _ | EvStderr _ => true
  | _ => false
  end.

Definition isChunk (ev : Event) : bool :=
  match ev with
  | EvChunk _ => true
  | _ => false
  end.

(** The probe of [conn] is pending with its watchdog armed and its
    client not ended, or has reported: a success with a latency, for
    which the watchdog was cleared and the client ended once, or a
    failure without latency. *)
Definition probing (conn : SSHConnection) (s : Session) : Prop :=
  match promise s with
  | Pending => timer s = Armed 10000 /\ ends s = 0
  | Resolved (TestResult true msg (Some _)) =>
      msg = "Connected successfully to " ++ host conn ++ ":" ++ showPort (port conn) /\
      timer s = Cleared /\ ends s = 1 /\ phase s = Finished
  | Resolved (TestResult false _ None) => True
  | _ => False
  end.

(** The client was never connected and no watchdog is armed. *)
Definition idle (s : Session) : Prop :=
  connected s = false /\ forall d, timer s <> Armed d.




(* ================================================================== *)
(** ** [binarylane.ts]: auto-discovery *)

Record BLNetwork := mkNetwork {
  ip_address : string;
  network_type : string
}.

Record BLServer := mkServer {
  server_id : Z;
  server_name : string;
  server_status : string;
  networks_v4 : list BLNetwork
}.

(** What the service answers to the requests of one discovery, one after
    the other: the request fails, or the answer is not [ok], or it is a
    page of servers with the address of the next page if there is one,
    followed by what the service would answer to the request for that
    page.  (A service that announces a next page for ever is not
    represented: the loop of the source does not end on it.) *)
Inductive Api :=
| FetchFails (msg : string)
| NotOk (status : Z) (text : string)
| Page (servers : list BLServer) (next : option string) (following : Api).

Inductive DiscoveryError :=
| FetchError (msg : string)
| ApiError (status : Z) (text : string).

(** The message of the error [discoverBinaryLaneServers] throws. *)
Definition discoveryMessage (e : DiscoveryError) : string :=
  match e with
  | FetchError msg => msg
  | ApiError status text => "BinaryLane API error (" ++ showZ status ++ "): " ++ text
  end.

(** The body of [for (const server of data.servers)]: the connections
    pushed for one page. *)
Fixpoint pushServers (defaultUsername : string) (defaultPrivateKeyPath : option string)
                     (servers : list BLServer) (connections : list SSHConnection)
  : list SSHConnection :=
  match servers with
  | [] => connections
  | server :: servers' =>
      if negb (server_status server =? "active") then
        pushServers defaultUsername defaultPrivateKeyPath servers' connections
      else
        match find (fun n => network_type n =? "public") (networks_v4 server) with
        | None => pushServers defaultUsername defaultPrivateKeyPath servers' connections
        | Some publicIp =>
            pushServers defaultUsername defaultPrivateKeyPath servers'
              (connections ++
               [mkConn (server_name server) (ip_address publicIp) (Some 22%Z)
                       defaultUsername defaultPrivateKeyPath None (Some SrcBinarylane)])
        end
  end.

(** The [while (url)] loop, with the connections collected so far. *)
Fixpoint discoverLoop (defaultUsername : string) (defaultPrivateKeyPath : option string)
                      (api : Api) (connections : list SSHConnection)
  : DiscoveryError + list SSHConnection :=
  match api with
  | FetchFails msg => inl (FetchError msg)
  | NotOk status text => inl (ApiError status text)
  | Page servers next following =>
      let connections := pushServers defaultUsername defaultPrivateKeyPath servers connections in
      if truthy next
      then discoverLoop defaultUsername defaultPrivateKeyPath following connections
      else inr connections
  end.

(** [api] is what the service answers to the bearer of [apiToken]. *)
Definition discoverBinaryLaneServers (api : string -> Api) (apiToken defaultUsername : string)
    (defaultPrivateKeyPath : option string) : DiscoveryError + list SSHConnection :=
  discoverLoop defaultUsername defaultPrivateKeyPath (api apiToken) [].

(* ================================================================== *)
(** ** [loadFromEnv] and [reloadConnections] *)

(** The variable [SSH_CONNECTIONS]: not set (or empty), set to something
    that [JSON.parse] or the mapping over it rejects, or set to an array,
    its elements read as connection records. *)
Inductive EnvVar :=
| Unset
| Malformed
| Records (records : list SSHConnection).

Definition with_source (c : SSHConnection) (s : option Source) : SSHConnection :=
  mkConn (name c) (host c) (port c) (username c) (privateKeyPath c) (password c) s.

Definition loadFromEnv (SSH_CONNECTIONS : EnvVar) : list SSHConnection :=
  match SSH_CONNECTIONS with
  | Unset => []
  | Malformed => []
  | Records connections => map (fun c => with_source c (Some SrcEnv)) connections
  end.

(** The environment of the process and the discovery service. *)
Record Environment := mkEnvironment {
  SSH_CONNECTIONS : EnvVar;
  BINARYLANE_API_TOKEN : option string;
  binarylaneApi : string -> Api
}.

(** The two lines [reloadConnections] prints about the discovery. *)
Inductive DiscoveryLog :=
| AutoDiscovered (count : nat)
| AutoDiscoveryFailed (e : DiscoveryError).

(** [a || b] on optional strings. *)
Definition orString (a b : option string) : option string :=
  if truthy a then a else b.

(** The connections of the configuration file, as the first source. *)
Definition configConnections (config : SSHMCPConfig) : list SSHConnection :=
  map (fun c => mkConn (cc_name c) (cc_host c) (Some (orDefault (cc_port c) 22))
                       (cc_username c) (cc_privateKeyPath c) (cc_password c)
                       (Some SrcConfig))
      (cfg_connections config).

(** The connections of the discovery, as the third source, and what is
    printed about them. *)
Definition blConnections (env : Environment) (config : SSHMCPConfig)
  : list SSHConnection * list DiscoveryLog :=
  let bl := binarylane config in
  let blToken := orString (apiToken bl) (BINARYLANE_API_TOKEN env) in
  if enabled bl && truthy blToken then
    match discoverBinaryLaneServers (binarylaneApi env) (orElse blToken "")
                                    (defaultUsername bl) (bl_defaultPrivateKeyPath bl) with
    | inr connections => (connections, [AutoDiscovered (length connections)])
    | inl e => ([], [AutoDiscoveryFailed e])
    end
  else ([], []).

(** The objects that the three sources are made of are new ones; those
    of the registry that is about to be cleared are no longer reachable
    from the manager, so the new objects are laid out from reference 0. *)
Definition allocate (objects : list SSHConnection) : Heap :=
  fun r => nth r objects (mkConn "" "" None "" None None None).

Definition reloadConnections (home : string) (env : Environment) (w : World)
  : World * list DiscoveryLog :=
  let (config, disk1) := loadConfig (disk w) in
  let s1 := configConnections config in
  let s2 := loadFromEnv (SSH_CONNECTIONS env) in
  let (s3, log) := blConnections env config in
  let st := mkManager (allocate (s1 ++ s2 ++ s3)) (connections (manager w))
                      (console (manager w)) in
  (mkWorld disk1
     (loadConnections home
        [ seq 0 (length s1);
          seq (length s1) (length s2);
          seq (length s1 + length s2) (length s3) ]
        st),
   log).

(* ================================================================== *)
(** ** [handlers.ts]: [add_connection] and [list_connections] *)




Section MoreHandlers.

Variable os : Os.
Variable reloadContext : option (World -> World).


End MoreHandlers.

(** The reload the server gives its handlers. *)
Definition serverReload (home : string) (env : Environment) : option (World -> World) :=
  Some (fun w => fst (reloadConnections home env w)).

(** The first record of a source that has the name and passes the
    validity test of the merge. *)
Definition firstValid (nm : string) (source : list SSHConnection) : option SSHConnection :=
  find (fun c => wellFormed c && (name c =? nm)) source.

(** The record a name resolves to. *)
Definition resolved (st : Manager) (nm : string) : option SSHConnection :=
  option_map (heap st) (getConnection st nm).

(** The servers of a page that give a connection: active, with a public
    IPv4 address. *)
Definition eligible (server : BLServer) : bool :=
  (server_status server =? "active") &&
  existsb (fun n => network_type n =? "public") (networks_v4 server).

(** The pages a discovery reads, if no request fails on the way. *)
Fixpoint pagesRead (api : Api) : option (list BLServer) :=
  match api with
  | FetchFails _ => None
  | NotOk _ _ => None
  | Page servers next following =>
      if truthy next
      then option_map (app servers) (pagesRead following)
      else Some servers
  end.

(** The connection made for an eligible server. *)
Definition serverConnection (defaultUsername : string) (defaultPrivateKeyPath : option string)
    (server : BLServer) : SSHConnection :=
  mkConn (server_name server)
         (match find (fun n => network_type n =? "public") (networks_v4 server) with
          | Some publicIp => ip_address publicIp
          | None => ""
          end)
         (Some 22%Z) defaultUsername defaultPrivateKeyPath None (Some SrcBinarylane).

(** The token a reload presents to the discovery service, if any. *)
Definition tokenUsed (env : Environment) (config : SSHMCPConfig) : option string :=
  let blToken := orString (apiToken (binarylane config)) (BINARYLANE_API_TOKEN env) in
  if enabled (binarylane config) && truthy blToken then blToken else None.

(** A service without servers. *)
Definition noServers : string -> Api := fun _ => Page [] None (FetchFails "").

Definition with_api (env : Environment) (api : string -> Api) : Environment :=
  mkEnvironment (SSH_CONNECTIONS env) (BINARYLANE_API_TOKEN env) api.

(** A sample environment: web1 and db1 come from the variable, the
    service lists three servers on two pages. *)
Definition sampleApi : string -> Api :=
  fun token =>
    if token =? "bl-token" then
      Page [mkServer 1 "db1" "active" [mkNetwork "10.1.1.1" "private";
                                       mkNetwork "203.0.113.7" "public"];
            mkServer 2 "old" "off" [mkNetwork "203.0.113.8" "public"]]
           (Some "https://api.binarylane.com.au/v2/servers?page=2")
           (Page [mkServer 3 "cache" "active" [mkNetwork "203.0.113.9" "public"]]
                 None (FetchFails ""))
    else NotOk 401 "Unauthorized".

Definition sampleEnv : Environment :=
  mkEnvironment (Records [web1_env; nohost; db1]) None sampleApi.



(* ================================================================== *)
(** ** [index.ts]: [formatError] *)

(** [String.prototype.includes] *)
Fixpoint includes (s k : string) : bool :=
  prefix k s ||
  match s with
  | String _ s' => includes s' k
  | EmptyString => false
  end.

(** What a handler may throw: a [ZodError] with its issues (path and
    message), an [Error] with its message, or something else, with its
    [String(...)]. *)
Inductive Thrown :=
| ZodIssues (issues : list (list string * string))
| ErrorWith (msg : string)
| NotAnError (text : string).

Definition formatIssue (issue : list string * string) : string :=
  (match fst issue with
   | [] => ""
   | path => String.concat "." path ++ ": "
   end) ++ snd issue.

Definition formatError (error : Thrown) : string :=
  match error with
  | ZodIssues issues =>
      "Validation error: " ++ String.concat "; " (map formatIssue issues) ++
      ". Please check the parameter values and try again."
  | ErrorWith msg =>
      if includes msg "ECONNREFUSED" then
        "Connection refused. Check that the server is running and the port is correct."
      else if includes msg "ETIMEDOUT" || includes msg "timed out" then
        "Connection timed out. Check that the server is reachable and not blocked by firewall."
      else if includes msg "Authentication failed" ||
              includes msg "All configured authentication methods failed" then
        "Authentication failed. Check your SSH key or password configuration."
      else if includes msg "ENOTFOUND" then
        "Host not found. Check the hostname or IP address."
      else if includes msg "Permission denied" then
        "Permission denied. Check file permissions or user privileges on the remote server."
      else if includes msg "No such file" then
        "File or directory not found on the remote server."
      else if includes msg "Unknown connection" then
        msg ++ ". Use list_connections to see available connections."
      else "Error: " ++ msg
  | NotAnError text => "Unexpected error: " ++ text
  end.

(** The character occurs in the string. *)
Fixpoint occurs (c : ascii) (s : string) : bool :=
  match s with
  | EmptyString => false
  | String a s' => Ascii.eqb a c || occurs c s'
  end.

(* ================================================================== *)
(** ** The order of a listing *)

(** The names of a list without those in [seen] and without
    repetitions, each at the place of its first occurrence. *)
Fixpoint keepFirst (seen names : list string) : list string :=
  match names with
  | [] => []
  | n :: names' =>
      if existsb (String.eqb n) seen then keepFirst seen names'
      else n :: keepFirst (seen ++ [n]) names'
  end.

(* ================================================================== *)
(** * Properties *)

(** ** The registry map *)

Lemma map_has_keys (m : Registry) (k : string) :
  map_has m k = existsb (String.eqb k) (map_keys m).
Proof.
  induction m as [|[k' v] m IH]; simpl; [reflexivity|].
  rewrite (String.eqb_sym k k'). destruct (k' =? k); simpl; auto.
Qed.

Lemma map_set_fresh (m : Registry) (k : string) (v : Ref) :
  map_has m k = false -> map_set m k v = (m ++ [(k, v)])%list.
Proof.
  induction m as [|[k' v'] m IH]; simpl; [reflexivity|].
  destruct (k' =? k); [discriminate|]. intros H. now rewrite IH.
Qed.

Lemma existsb_snoc {A} (f : A -> bool) (l : list A) (a : A) :
  existsb f (l ++ [a])%list = existsb f l || f a.
Proof. rewrite existsb_app. simpl. now rewrite orb_false_r. Qed.

(** ** The two updates of an accepted record *)

Lemma acceptUpdate_name home c : name (acceptUpdate home c) = name c.
Proof. unfold acceptUpdate. destruct (truthy (privateKeyPath c)); reflexivity. Qed.

Lemma acceptUpdate_wellFormed home c : wellFormed (acceptUpdate home c) = wellFormed c.
Proof. unfold acceptUpdate. destruct (truthy (privateKeyPath c)); reflexivity. Qed.

Lemma acceptUpdate_port home c :
  port (acceptUpdate home c) = Some (orDefault (port c) 22).
Proof. unfold acceptUpdate. destruct (truthy (privateKeyPath c)); reflexivity. Qed.


Lemma orDefault_nonzero (o : option Z) : (orDefault o 22 =? 0)%Z = false.
Proof.
  destruct o as [n|]; simpl; [|reflexivity].
  destruct (n =? 0)%Z eqn:E; [reflexivity|assumption].
Qed.

Lemma expandTilde_plain home p :
  plainHome home = true -> expandTilde home (expandTilde home p) = expandTilde home p.
Proof.
  intros Hh. destruct home as [|c0 rest0]; [discriminate|].
  simpl in Hh. apply andb_true_iff in Hh as [H1 H2].
  apply negb_true_iff in H1, H2.
  destruct p as [|c rest]; [reflexivity|].
  unfold expandTilde at 2. destruct (Ascii.eqb c "~") eqn:E.
  - cbn [getSubstitution]. rewrite H2. cbn [append expandTilde]. rewrite H1, E.
    cbn [getSubstitution]. now rewrite H2.
  - cbn [expandTilde]. now rewrite E.
Qed.

Lemma acceptUpdate_idem home c :
  plainHome home = true ->
  acceptUpdate home (acceptUpdate home c) = acceptUpdate home c.
Proof.
  intros Hh. destruct c as [n h p u k pw s].
  unfold acceptUpdate, with_port, with_privateKeyPath; cbn.
  destruct k as [path|]; cbn.
  - destruct (nonEmpty path) eqn:E; cbn.
    + destruct (nonEmpty (expandTilde home path)); cbn;
        rewrite ?expandTilde_plain, ?orDefault_nonzero by assumption; reflexivity.
    + rewrite E; cbn. now rewrite orDefault_nonzero.
  - now rewrite orDefault_nonzero.
Qed.

(** ** The merge loop against the specified selection *)

Section Merge.

Variable home : string.

Lemma accepted_sameKeys h1 h2 refs :
  sameKeys h1 h2 -> forall seen, accepted h1 seen refs = accepted h2 seen refs.
Proof.
  intros HK. induction refs as [|r refs IH]; intros seen; simpl; [reflexivity|].
  destruct (HK r) as [-> ->].
  destruct (wellFormed (h2 r) && negb (existsb (String.eqb (name (h2 r))) seen));
    now rewrite IH.
Qed.

Lemma sameKeys_write h r :
  sameKeys (write h r (acceptUpdate home (h r))) h.
Proof.
  intros r'. unfold write. destruct (Nat.eqb r' r) eqn:E.
  - apply Nat.eqb_eq in E as ->.
    now rewrite acceptUpdate_name, acceptUpdate_wellFormed.
  - split; reflexivity.
Qed.

(** A record whose name was seen is not selected again. *)
Lemma accepted_seen h refs :
  forall seen r, In r (accepted h seen refs) ->
                 existsb (String.eqb (name (h r))) seen = false.
Proof.
  induction refs as [|r0 refs IH]; intros seen r; simpl; [tauto|].
  destruct (wellFormed (h r0)); simpl.
  - destruct (existsb (String.eqb (name (h r0))) seen) eqn:E; simpl.
    + apply IH.
    + intros [<-|Hin]; [assumption|].
      apply IH in Hin. rewrite existsb_snoc in Hin.
      now apply orb_false_iff in Hin.
  - apply IH.
Qed.

Lemma memRef_In r l : memRef r l = true <-> In r l.
Proof.
  unfold memRef. rewrite existsb_exists. split.
  - intros [x [Hin E]]. apply Nat.eqb_eq in E. now subst.
  - intros Hin. exists r. split; [assumption|apply Nat.eqb_refl].
Qed.

(** The loop, from any state: the map grows by the selected records in
    order, the selected objects are updated once and no other object is
    touched, and every malformed record is reported. *)
Lemma loop_accepted refs :
  forall st,
    let st' := fold_left (loadOne home) refs st in
    let acc := accepted (heap st) (map_keys (connections st)) refs in
    connections st' = (connections st ++ map (entry (heap st)) acc)%list /\
    (forall r, heap st' r =
               if memRef r acc then acceptUpdate home (heap st r) else heap st r) /\
    console st' =
      (console st ++
       map InvalidConnectionConfig (filter (fun r => negb (wellFormed (heap st r))) refs))%list.
Proof.
  induction refs as [|r0 refs IH]; intros st; cbn zeta.
  - simpl. rewrite !app_nil_r. auto.
  - cbn [fold_left accepted filter].
    unfold loadOne at 2 4 6.
    destruct (wellFormed (heap st r0)) eqn:Hwf; cbn [negb andb].
    + rewrite map_has_keys.
      destruct (existsb (String.eqb (name (heap st r0))) (map_keys (connections st))) eqn:Hseen;
        cbn [negb].
      * apply IH.
      * specialize (IH (mkManager (write (heap st) r0 (acceptUpdate home (heap st r0)))
                                  (map_set (connections st) (name (heap st r0)) r0)
                                  (console st))).
        cbn zeta in IH. cbn [heap connections console] in IH.
        rewrite map_set_fresh in IH by now rewrite map_has_keys.
        rewrite map_set_fresh by now rewrite map_has_keys.
        unfold map_keys in IH. rewrite map_app in IH. cbn [map fst] in IH.
        fold (map_keys (connections st)) in IH.
        rewrite (accepted_sameKeys _ _ _ (sameKeys_write (heap st) r0)) in IH.
        destruct IH as (Hc & Hh & Hlog).
        split; [|split].
        -- rewrite Hc, <- app_assoc. cbn [app map]. f_equal. f_equal.
           apply map_ext_in. intros r _. unfold entry.
           now destruct (sameKeys_write (heap st) r0 r) as [-> _].
        -- intros r. rewrite Hh. unfold memRef at 2. cbn [existsb].
           fold (memRef r (accepted (heap st)
                             (map_keys (connections st) ++ [name (heap st r0)]) refs)).
           unfold write. destruct (Nat.eqb r r0) eqn:E; cbn [orb].
           ++ apply Nat.eqb_eq in E. subst r.
              destruct (memRef r0 _) eqn:M; [|reflexivity].
              apply memRef_In, accepted_seen in M.
              rewrite existsb_snoc, String.eqb_refl, orb_true_r in M. discriminate.
           ++ reflexivity.
        -- rewrite Hlog. f_equal. f_equal. apply filter_ext. intros r.
           now destruct (sameKeys_write (heap st) r0 r) as [_ ->].
    + specialize (IH (mkManager (heap st) (connections st)
                                (console st ++ [InvalidConnectionConfig r0]))).
      cbn zeta in IH. cbn [heap connections console] in IH.
      destruct IH as (Hc & Hh & Hlog).
      split; [assumption|split; [assumption|]].
      rewrite Hlog, <- app_assoc. reflexivity.
Qed.

Lemma fold_sources sources :
  forall st,
    fold_left (fun s connectionList => fold_left (loadOne home) connectionList s) sources st =
    fold_left (loadOne home) (concat sources) st.
Proof.
  induction sources as [|l sources IH]; intros st; simpl; [reflexivity|].
  now rewrite fold_left_app, IH.
Qed.

Lemma loadConnections_accepted sources st :
  let st' := loadConnections home sources st in
  let acc := accepted (heap st) [] (concat sources) in
  connections st' = map (entry (heap st)) acc /\
  (forall r, heap st' r =
             if memRef r acc then acceptUpdate home (heap st r) else heap st r) /\
  console st' =
    (console st ++
     map InvalidConnectionConfig
         (filter (fun r => negb (wellFormed (heap st r))) (concat sources)) ++
     [Loaded (length acc)])%list.
Proof.
  cbn zeta. unfold loadConnections. rewrite fold_sources.
  destruct (loop_accepted (concat sources) (mkManager (heap st) [] (console st)))
    as (Hc & Hh & Hlog).
  cbn [heap connections console map_keys map app] in *.
  split; [assumption|split; [assumption|]].
  rewrite Hlog, Hc, length_map, <- app_assoc. reflexivity.
Qed.

(** The names of the selected records are pairwise different. *)
Lemma accepted_NoDup h refs :
  forall seen, NoDup (map (fun r => name (h r)) (accepted h seen refs)).
Proof.
  induction refs as [|r0 refs IH]; intros seen; simpl; [constructor|].
  destruct (wellFormed (h r0) && negb (existsb (String.eqb (name (h r0))) seen)); [|apply IH].
  simpl. constructor; [|apply IH].
  intros Hin. apply in_map_iff in Hin as [r [Hn Hr]].
  apply accepted_seen in Hr. rewrite existsb_snoc, Hn, String.eqb_refl, orb_true_r in Hr.
  discriminate.
Qed.

(** Looking a name up among the selected records finds the first
    well-formed record of that name. *)
Lemma get_accepted h x refs :
  forall seen,
    existsb (String.eqb x) seen = false ->
    map_get (map (entry h) (accepted h seen refs)) x =
    find (fun r => wellFormed (h r) && (name (h r) =? x)) refs.
Proof.
  induction refs as [|r0 refs IH]; intros seen Hx; simpl; [reflexivity|].
  destruct (wellFormed (h r0)) eqn:Hwf; cbn [andb].
  - destruct (existsb (String.eqb (name (h r0))) seen) eqn:Hseen; cbn [negb].
    + destruct (name (h r0) =? x) eqn:E.
      * apply String.eqb_eq in E. rewrite E in Hseen. congruence.
      * now apply IH.
    + cbn [map entry map_get]. destruct (name (h r0) =? x) eqn:E; [reflexivity|].
      apply IH. rewrite existsb_snoc, Hx. cbn. now rewrite String.eqb_sym.
  - now apply IH.
Qed.

End Merge.

(** ** The merge: the claims *)

Lemma accepted_app h l1 :
  forall seen l2,
    accepted h seen (l1 ++ l2) =
    (accepted h seen l1 ++
     accepted h (seen ++ map (fun r => name (h r)) (accepted h seen l1)) l2)%list.
Proof.
  induction l1 as [|r l1 IH]; intros seen l2; simpl.
  - now rewrite app_nil_r.
  - destruct (wellFormed (h r) && negb (existsb (String.eqb (name (h r))) seen)); simpl.
    + rewrite IH, <- app_assoc. reflexivity.
    + apply IH.
Qed.



Lemma find_app_found {A} (f : A -> bool) (l1 l2 : list A) (a : A) :
  find f l1 = Some a -> find f (l1 ++ l2) = Some a.
Proof.
  induction l1 as [|b l1 IH]; simpl; [discriminate|].
  destruct (f b); [trivial|exact IH].
Qed.

Lemma map_get_In (m : Registry) (k : string) (v : Ref) :
  map_get m k = Some v -> In (k, v) m.
Proof.
  induction m as [|[k' v'] m IH]; simpl; [discriminate|].
  destruct (k' =? k) eqn:E.
  - apply String.eqb_eq in E. intros [= ->]. left. now subst.
  - intros H. right. now apply IH.
Qed.

Lemma values_entries (h : Heap) (l : list Ref) : map snd (map (entry h) l) = l.
Proof. rewrite map_map. cbn. apply map_id. Qed.

Lemma NoDup_map_inj {A B} (f : A -> B) (l : list A) (a b : A) :
  NoDup (map f l) -> In a l -> In b l -> f a = f b -> a = b.
Proof.
  induction l as [|c l IH]; simpl; intros ND Ha Hb E; [contradiction|].
  inversion ND as [|? ? Hn ND']; subst.
  destruct Ha as [->|Ha], Hb as [->|Hb]; auto.
  - exfalso. apply Hn. rewrite E. now apply in_map.
  - exfalso. apply Hn. rewrite <- E. now apply in_map.
Qed.

Lemma acceptUpdate_host home c : host (acceptUpdate home c) = host c.
Proof. unfold acceptUpdate. destruct (truthy (privateKeyPath c)); reflexivity. Qed.

Lemma acceptUpdate_username home c : username (acceptUpdate home c) = username c.
Proof. unfold acceptUpdate. destruct (truthy (privateKeyPath c)); reflexivity. Qed.

Lemma acceptUpdate_password home c : password (acceptUpdate home c) = password c.
Proof. unfold acceptUpdate. destruct (truthy (privateKeyPath c)); reflexivity. Qed.

Lemma acceptUpdate_source home c : source (acceptUpdate home c) = source c.
Proof. unfold acceptUpdate. destruct (truthy (privateKeyPath c)); reflexivity. Qed.

(** The claim C3 as stated fails when the record of the higher-priority
    source is not valid: the first source holds a record named db1
    without a host, the second a valid record of that name, and db1
    resolves to the record of the second source; the record of the
    first source is not in the registry. *)
Lemma priority_merge_malformed :
  let st' := loadConnections "/home/u" [[2]; [3]] sampleManager in
  name (heap sampleManager 2) = "db1" /\ name (heap sampleManager 3) = "db1" /\
  host (heap sampleManager 2) = "" /\
  getConnection st' "db1" = Some 3 /\
  getConnection st' "db1" <> Some 2 /\
  ~ In 2 (map_values (connections st')) /\
  host (heap st' 3) = "192.168.1.11".
Proof.
  cbn zeta. split; [reflexivity|]. split; [reflexivity|]. split; [reflexivity|].
  split; [reflexivity|]. split; [discriminate|]. split; [|reflexivity].
  intros [H|[]]. discriminate H.
Qed.

(** C3, amended.  When two sources both have a record named [x], the
    first (higher priority) source [S1] defining [x] by its record [r1],
    the first record of [S1] of that name with a non-empty name, host
    and user name, and the second source [S2] holding a record [r2] of
    that name, then after [loadConnections [S1; S2]] the name [x]
    resolves to the very object [r1] of [S1]; its host, user name,
    password and source are as [S1] gave them and its port and key path
    are its own, after the two updates of acceptance; the record [r2] of
    [S2], unless it is that same object, is not in the map and is left
    as it was, so nothing of it is merged in. *)
Theorem priority_merge (home : string) (st : Manager) (S1 S2 : list Ref)
    (x : string) (r1 r2 : Ref) :
  defines (heap st) S1 x r1 ->
  In r2 S2 -> name (heap st r2) = x ->
  let st' := loadConnections home [S1; S2] st in
  getConnection st' x = Some r1 /\
  heap st' r1 = acceptUpdate home (heap st r1) /\
  name (heap st' r1) = x /\
  host (heap st' r1) = host (heap st r1) /\
  username (heap st' r1) = username (heap st r1) /\
  password (heap st' r1) = password (heap st r1) /\
  source (heap st' r1) = source (heap st r1) /\
  (r2 = r1 \/ (~ In r2 (map_values (connections st')) /\ heap st' r2 = heap st r2)).
Proof.
  intros H1 Hin2 H2. cbn zeta.
  destruct (loadConnections_accepted home [S1; S2] st) as (Hc & Hh & _).
  cbn [concat] in Hc, Hh. rewrite app_nil_r in Hc, Hh.
  set (st' := loadConnections home [S1; S2] st) in *.
  set (acc := accepted (heap st) [] (S1 ++ S2)) in *.
  assert (Hget : getConnection st' x = Some r1).
  { unfold getConnection. rewrite Hc. unfold acc.
    rewrite get_accepted by reflexivity. now apply find_app_found. }
  assert (Hacc : In r1 acc /\ name (heap st r1) = x).
  { unfold getConnection in Hget. rewrite Hc in Hget.
    apply map_get_In, in_map_iff in Hget as [r [Hr Hin]].
    unfold entry in Hr. injection Hr as Hn <-. now split. }
  destruct Hacc as [Hacc Hname].
  assert (Hupd : heap st' r1 = acceptUpdate home (heap st r1)).
  { rewrite Hh. now rewrite (proj2 (memRef_In r1 acc) Hacc). }
  split; [exact Hget|]. split; [exact Hupd|].
  rewrite Hupd, acceptUpdate_name.
  split; [exact Hname|].
  split; [apply acceptUpdate_host|]. split; [apply acceptUpdate_username|].
  split; [apply acceptUpdate_password|]. split; [apply acceptUpdate_source|].
  destruct (Nat.eq_dec r2 r1) as [->|Hne]; [now left|right].
  assert (Hnot : ~ In r2 acc).
  { intros Hacc2. apply Hne.
    apply (NoDup_map_inj (fun r => name (heap st r)) acc);
      [apply accepted_NoDup|assumption|assumption|congruence]. }
  split.
  - unfold map_values. rewrite Hc, values_entries. exact Hnot.
  - rewrite Hh. destruct (memRef r2 acc) eqn:M; [|reflexivity].
    apply memRef_In in M. contradiction.
Qed.

Lemma priority_merge_witness :
  let st' := loadConnections "/home/u" [[0]; [1; 2]] sampleManager in
  getConnection st' "web1" = Some 0 /\
  heap st' 0 =
    mkConn "web1" "192.168.1.10" (Some 22%Z) "root" (Some "/home/u/.ssh/id_rsa") None
           (Some SrcConfig) /\
  heap st' 1 = web1_env.
Proof.
  pose proof (priority_merge "/home/u" sampleManager [0] [1; 2] "web1" 0 1
                eq_refl (or_introl eq_refl) eq_refl) as H.
  cbn zeta in H. destruct H as (Hget & Hh & _ & _ & _ & _ & _ & [Heq|[_ Hfr]]).
  - discriminate Heq.
  - cbn zeta. split; [exact Hget|]. split; [exact Hh|exact Hfr].
Defined.

Lemma loaded_name home sources st r :
  name (heap (loadConnections home sources st) r) = name (heap st r) /\
  wellFormed (heap (loadConnections home sources st) r) = wellFormed (heap st r).
Proof.
  destruct (loadConnections_accepted home sources st) as (_ & Hh & _).
  rewrite Hh. destruct (memRef r _); [|split; reflexivity].
  now rewrite acceptUpdate_name, acceptUpdate_wellFormed.
Qed.

(** The claim C8 as stated fails when the home directory itself begins
    with a tilde: the first merge expands the key path of web1 to a path
    that begins with a tilde again, the second merge expands that path
    once more, and the record the registry resolves web1 to is not the
    same after the two merges. *)
Lemma merge_twice_tilde_home :
  let st1 := loadConnections "~u" [[0]] sampleManager in
  let st2 := loadConnections "~u" [[0]] st1 in
  getConnection st1 "web1" = Some 0 /\ getConnection st2 "web1" = Some 0 /\
  privateKeyPath (heap st1 0) = Some "~u/.ssh/id_rsa" /\
  privateKeyPath (heap st2 0) = Some "~uu/.ssh/id_rsa" /\
  heap st2 0 <> heap st1 0.
Proof.
  cbn zeta. split; [reflexivity|]. split; [reflexivity|]. split; [reflexivity|].
  split; [reflexivity|]. discriminate.
Qed.

(** C8, amended.  When the home directory is a path that does not begin
    with a tilde or a dollar, merging the same sources twice gives the
    state that merging them once gives: the same map, the same objects
    field by field, the same listing.  The second merge meets the
    objects as the first one left them, tilde-expanded and with their
    port set; it accepts the same objects, and the two updates change
    nothing any more. *)
Theorem merge_idempotent (home : string) (sources : list (list Ref)) (st : Manager) :
  plainHome home = true ->
  let st1 := loadConnections home sources st in
  let st2 := loadConnections home sources st1 in
  connections st2 = connections st1 /\
  (forall r, heap st2 r = heap st1 r) /\
  listConnections st2 = listConnections st1.
Proof.
  intros Hhome. cbn zeta.
  set (st1 := loadConnections home sources st).
  destruct (loadConnections_accepted home sources st) as (Hc1 & Hh1 & _).
  destruct (loadConnections_accepted home sources st1) as (Hc2 & Hh2 & _).
  fold st1 in Hc1, Hh1.
  assert (HK : sameKeys (heap st1) (heap st)) by (intros r; apply loaded_name).
  rewrite (accepted_sameKeys _ _ _ HK) in Hc2, Hh2.
  set (acc := accepted (heap st) [] (concat sources)) in *.
  assert (Hc : connections (loadConnections home sources st1) = connections st1).
  { rewrite Hc2, Hc1. apply map_ext. intros r. unfold entry.
    now destruct (HK r) as [-> _]. }
  assert (Hh : forall r, heap (loadConnections home sources st1) r = heap st1 r).
  { intros r. rewrite Hh2, Hh1. destruct (memRef r acc); [|reflexivity].
    now apply acceptUpdate_idem. }
  split; [exact Hc|]. split; [exact Hh|].
  unfold listConnections. rewrite Hc. apply map_ext. intros r. now rewrite Hh.
Qed.

Lemma merge_idempotent_witness :
  let st1 := loadConnections "/home/u" [[0]; [1; 2]; [3]] sampleManager in
  listConnections (loadConnections "/home/u" [[0]; [1; 2]; [3]] st1) =
  [ mkInfo "web1" "192.168.1.10" (Some 22%Z) "root" (Some SrcConfig);
    mkInfo "db1" "192.168.1.11" (Some 22%Z) "admin" (Some SrcBinarylane) ].
Proof.
  cbn zeta.
  rewrite (proj2 (proj2 (merge_idempotent "/home/u" [[0]; [1; 2]; [3]] sampleManager
                           eq_refl))).
  reflexivity.
Defined.

(** C9.  After a merge, whatever the sources, the names in the listing
    are pairwise different. *)
Theorem names_unique (home : string) (sources : list (list Ref)) (st : Manager) :
  NoDup (map info_name (listConnections (loadConnections home sources st))).
Proof.
  destruct (loadConnections_accepted home sources st) as (Hc & _ & _).
  unfold listConnections, map_values. rewrite Hc, values_entries, map_map. cbn [info_name].
  rewrite (map_ext _ (fun r => name (heap st r))).
  - apply accepted_NoDup.
  - intros r. apply loaded_name.
Qed.

(* ================================================================== *)
(** ** Authentication resolution *)

(** C6.  [getConnectConfig] resolves the credential in the order of the
    specification: a set [privateKeyPath] decides alone, and the file
    must exist, else the call fails with the key-not-found error; else a
    set [password] is used as it is; else the ed25519 key and then the
    RSA key of the SSH directory are probed and the first one that exists
    is read; when none of this gives a credential, the call fails with
    the no-authentication error.  (A property is set when it is a
    non-empty string, the test the source makes.  A key file that is
    chosen is read, and a failure to read it is passed on.) *)
Theorem auth_resolution_order (os : Os) (conn : SSHConnection) :
  getConnectConfig os conn =
  match resolveAuth os conn with
  | inl (KeyFile p) =>
      match readFileSync os p with
      | Ok key =>
          Ok (mkConnectConfig (host conn) (port conn) (username conn) (Some key) None)
      | Throw e => Throw e
      end
  | inl (PasswordOf pw) =>
      Ok (mkConnectConfig (host conn) (port conn) (username conn) None (Some pw))
  | inr (KeyNotFound p) => Throw (PrivateKeyNotFound p)
  | inr NoAuthenticationAvailable => Throw NoAuthenticationMethod
  end.
Proof.
  unfold getConnectConfig, resolveAuth, defaultKeys, isSet, truthy.
  destruct (privateKeyPath conn) as [p|].
  - destruct (nonEmpty p) eqn:Ep.
    + destruct (existsSync os p); reflexivity.
    + destruct (password conn) as [pw|]; [destruct (nonEmpty pw); [reflexivity|]|];
        cbn [probeKeys find];
        destruct (existsSync os (join os [homedir os; ".ssh"; "id_ed25519"]));
        try (destruct (readFileSync os _); reflexivity);
        destruct (existsSync os (join os [homedir os; ".ssh"; "id_rsa"]));
        try (destruct (readFileSync os _); reflexivity); reflexivity.
  - destruct (password conn) as [pw|]; [destruct (nonEmpty pw); [reflexivity|]|];
      cbn [probeKeys find];
      destruct (existsSync os (join os [homedir os; ".ssh"; "id_ed25519"]));
      try (destruct (readFileSync os _); reflexivity);
      destruct (existsSync os (join os [homedir os; ".ssh"; "id_rsa"]));
      try (destruct (readFileSync os _); reflexivity); reflexivity.
Qed.

(** The four cases on the sample platform. *)
Example auth_key_missing :
  getConnectConfig sampleOs
    (mkConn "a" "h" (Some 22%Z) "u" (Some "/home/u/.ssh/absent") (Some "pw") None)
  = Throw (PrivateKeyNotFound "/home/u/.ssh/absent").
Proof. reflexivity. Qed.

Example auth_password :
  getConnectConfig sampleOs (mkConn "a" "h" (Some 22%Z) "u" None (Some "pw") None)
  = Ok (mkConnectConfig "h" (Some 22%Z) "u" None (Some "pw")).
Proof. reflexivity. Qed.

Example auth_default_key :
  getConnectConfig sampleOs (mkConn "a" "h" (Some 22%Z) "u" None None None)
  = Ok (mkConnectConfig "h" (Some 22%Z) "u" (Some "RSA PRIVATE KEY") None).
Proof. reflexivity. Qed.

Example auth_none :
  getConnectConfig (mkOs "/home/v" (String.concat "/") sampleFs (fun _ => None))
                   (mkConn "a" "h" (Some 22%Z) "u" None None None)
  = Throw NoAuthenticationMethod.
Proof. reflexivity. Qed.

(* ================================================================== *)
(** ** Removing a connection *)

Lemma map_delete_has (m : Registry) (k : string) :
  snd (map_delete m k) = map_has m k.
Proof.
  induction m as [|[k' v] m IH]; simpl; [reflexivity|].
  destruct (k' =? k); [reflexivity|].
  destruct (map_delete m k) as [m' b]. exact IH.
Qed.

Lemma map_delete_other (m : Registry) (k k0 : string) :
  k0 <> k -> map_get (fst (map_delete m k)) k0 = map_get m k0.
Proof.
  intros Hne. induction m as [|[k' v] m IH]; simpl; [reflexivity|].
  destruct (k' =? k) eqn:E.
  - apply String.eqb_eq in E. subst k'. simpl.
    destruct (k =? k0) eqn:E0; [|reflexivity].
    apply String.eqb_eq in E0. congruence.
  - destruct (map_delete m k) as [m' b]. simpl in *. now rewrite IH.
Qed.

Lemma map_delete_length (m : Registry) (k : string) :
  length m = length (fst (map_delete m k)) + (if map_has m k then 1 else 0).
Proof.
  induction m as [|[k' v] m IH]; simpl; [reflexivity|].
  destruct (k' =? k); [cbn [fst]; lia|].
  destruct (map_delete m k) as [m' b]. cbn [fst length] in *. lia.
Qed.

(** The claim C5 read on [SSHClientManager.removeConnection] fails: the
    record named web1 of this registry, which is the registry a merge
    builds when only the environment defines a connection, came from the
    environment, and removing it succeeds and empties the registry. *)
Lemma remove_environment_record :
  connections (loadConnections "/home/u" [[]; [1]; []] sampleManager) =
    connections envOnly /\
  heap (loadConnections "/home/u" [[]; [1]; []] sampleManager) 1 = heap envOnly 1 /\
  getConnection envOnly "web1" = Some 1 /\
  source (heap envOnly 1) = Some SrcEnv /\
  snd (removeConnection "web1" envOnly) = true /\
  connections (fst (removeConnection "web1" envOnly)) = [] /\
  connections (fst (removeConnection "web1" envOnly)) <> connections envOnly.
Proof.
  split; [reflexivity|]. split; [reflexivity|].
  split; [reflexivity|]. split; [reflexivity|]. split; [reflexivity|].
  split; [reflexivity|]. discriminate.
Qed.

(** C5, amended.  The manual-only scope is that of the [remove_connection]
    handler, which first checks its arguments, throwing without touching
    anything when the name is missing or empty, and then looks the name
    up in the configuration file: it succeeds exactly when the file has
    a connection of that name, which it then removes from the file
    before reloading; for any other name, one that the registry holds
    from the environment or from discovery included, it reports failure
    and leaves the registry and the configuration as they were.
    [SSHClientManager.removeConnection] itself looks at the name only:
    it deletes the record of that name whatever its source, leaves the
    other names alone, and returns whether a record was deleted. *)
Theorem remove_scope (os : Os) (reloadConnections : option (World -> World))
    (args : RemoveConnectionArgs) (nm : string) (w : World) (st : Manager) :
  let config := fst (loadConfig (disk w)) in
  let manual := existsb (named nm) (cfg_connections config) in
  let updated :=
    mkConfig (defaultPrivateKeyPath config) (binarylane config)
             (filter (fun c => negb (named nm c)) (cfg_connections config)) in
  (removeConnectionSchema args = Some nm <-> remove_name args = Some nm /\ nm <> "") /\
  (removeConnectionSchema args = None ->
   remove_connection os reloadConnections args w = None) /\
  (removeConnectionSchema args = Some nm ->
   exists w' reply,
     remove_connection os reloadConnections args w = Some (w', reply) /\
     success reply = manual /\
     w' = (if manual then reload reloadConnections (mkWorld (stored updated) (manager w))
           else mkWorld (snd (loadConfig (disk w))) (manager w))) /\
  fst (loadConfig (snd (loadConfig (disk w)))) = config /\
  existsb (named nm) (cfg_connections updated) = false /\
  fst (removeConnectionFromConfig config nm (disk w)) =
    (if manual then Some updated else None) /\
  snd (removeConnection nm st) = map_has (connections st) nm /\
  heap (fst (removeConnection nm st)) = heap st /\
  length (connections st) =
    length (connections (fst (removeConnection nm st))) +
    (if map_has (connections st) nm then 1 else 0) /\
  (forall k, k <> nm ->
     getConnection (fst (removeConnection nm st)) k = getConnection st k).
Proof.
  cbn zeta.
  split.
  { unfold removeConnectionSchema, nonEmpty. destruct (remove_name args) as [n|].
    - destruct (n =? "") eqn:E; cbn [negb].
      + apply String.eqb_eq in E. subst n. split; [discriminate|].
        intros [[= <-] Hne]. now elim Hne.
      + apply String.eqb_neq in E. split.
        * intros [= <-]. now split.
        * now intros [[= <-] _].
    - split; [discriminate|]. now intros [? _]. }
  split.
  { intros Hs. unfold remove_connection. now rewrite Hs. }
  split.
  { intros Hs. unfold remove_connection, removeConnectionFromConfig. rewrite Hs.
    destruct (loadConfig (disk w)) as [config disk1]. cbn [fst snd].
    destruct (existsb (named nm) (cfg_connections config)); cbn [negb];
      eexists; eexists; (split; [reflexivity|split; reflexivity]). }
  unfold removeConnectionFromConfig.
  destruct (loadConfig (disk w)) as [config disk1] eqn:EL. cbn [fst snd].
  split.
  { destruct (disk w) as [| |p]; cbn in EL; injection EL as <- <-; reflexivity. }
  split.
  { cbn [cfg_connections]. clear. induction (cfg_connections config) as [|c l IH];
      [reflexivity|]. cbn [filter]. destruct (named nm c) eqn:E; cbn [negb]; [exact IH|].
    cbn [existsb]. now rewrite E. }
  split.
  { now destruct (existsb (named nm) (cfg_connections config)). }
  unfold removeConnection, getConnection.
  pose proof (map_delete_has (connections st) nm) as Hb.
  pose proof (map_delete_length (connections st) nm) as Hl.
  pose proof (map_delete_other (connections st) nm) as Ho.
  destruct (map_delete (connections st) nm) as [m b]. cbn [fst snd heap connections] in *.
  split; [exact Hb|]. split; [reflexivity|]. split; [exact Hl|].
  intros k Hk. now apply Ho.
Qed.

(** On the sample world: web1 is held from the environment only, and the
    handler refuses to remove it; staging is manual, and is removed; a
    call without a name throws. *)
Lemma remove_scope_witness :
  (exists w' reply,
     remove_connection sampleOs None (mkRemoveArgs (Some "web1")) sampleWorld =
       Some (w', reply) /\
     success reply = false /\ manager w' = envOnly) /\
  (exists w' reply,
     remove_connection sampleOs None (mkRemoveArgs (Some "staging")) sampleWorld =
       Some (w', reply) /\
     success reply = true) /\
  remove_connection sampleOs None (mkRemoveArgs (Some "")) sampleWorld = None /\
  getConnection (fst (removeConnection "db1" envOnly)) "web1" = Some 1.
Proof.
  pose proof (remove_scope sampleOs None (mkRemoveArgs (Some "web1")) "web1"
                sampleWorld envOnly) as H1.
  pose proof (remove_scope sampleOs None (mkRemoveArgs (Some "staging")) "staging"
                sampleWorld envOnly) as H2.
  pose proof (remove_scope sampleOs None (mkRemoveArgs (Some "")) "db1"
                sampleWorld envOnly) as H3.
  cbn zeta in H1, H2, H3.
  destruct H1 as (_ & _ & S1 & _). destruct H2 as (_ & _ & S2 & _).
  destruct H3 as (_ & T3 & _ & _ & _ & _ & _ & _ & _ & G3).
  destruct (S1 eq_refl) as (w1 & reply1 & E1 & R1 & W1).
  destruct (S2 eq_refl) as (w2 & reply2 & E2 & R2 & _).
  split; [exists w1, reply1; split; [exact E1|split; [exact R1|exact (f_equal manager W1)]]|].
  split; [exists w2, reply2; split; [exact E2|exact R2]|].
  split; [exact (T3 eq_refl)|].
  exact (G3 "web1" ltac:(discriminate)).
Defined.

(* ================================================================== *)
(** ** Redaction *)

(** The claim C10 as stated fails on a secret that is present and empty:
    it is not replaced by the mask but dropped, for the token and for the
    password, and the two configurations above, which differ only in the
    value of a present password, are told apart by their redactions. *)
Lemma redact_empty_secret :
  apiToken (binarylane emptyPassword) = Some "" /\
  apiToken (binarylane (redactConfig emptyPassword)) = None /\
  map cc_password (cfg_connections emptyPassword) = [Some ""] /\
  map cc_password (cfg_connections (redactConfig emptyPassword)) = [None] /\
  map cc_password (cfg_connections (redactConfig realPassword)) = [Some "***"] /\
  redactConfig emptyPassword <> redactConfig realPassword.
Proof.
  split; [reflexivity|]. split; [reflexivity|]. split; [reflexivity|].
  split; [reflexivity|]. split; [reflexivity|]. discriminate.
Qed.

Lemma redact_public (c1 c2 : list ConnectionConfig) :
  map publicConnection c1 = map publicConnection c2 ->
  map (fun c => mkConnectionConfig (cc_name c) (cc_host c) (cc_port c) (cc_username c)
                  (cc_privateKeyPath c) (redactSecret (cc_password c))) c1 =
  map (fun c => mkConnectionConfig (cc_name c) (cc_host c) (cc_port c) (cc_username c)
                  (cc_privateKeyPath c) (redactSecret (cc_password c))) c2.
Proof.
  revert c2. induction c1 as [|a c1 IH]; intros [|b c2] H; try discriminate; [reflexivity|].
  cbn [map] in *. injection H as Hn Hh Hp Hu Hk Hpw Hrest.
  unfold redactSecret. rewrite Hn, Hh, Hp, Hu, Hk, Hpw. f_equal. now apply IH.
Qed.

(** C10, amended.  [redactConfig] keeps every field of the configuration
    but the API token and the passwords; a token or password that is a
    non-empty string comes out as the mask, one that is absent or empty
    comes out absent.  So two configurations that agree on everything but
    the values of their non-empty secrets have the same redaction, and
    what [get_config] returns is the redaction of the configuration it
    loaded: it shows no non-empty password or token. *)
Theorem redaction_hides_secrets (os : Os) (config config' : SSHMCPConfig) (w : World) :
  publicView config = publicView config' ->
  redactConfig config = redactConfig config' /\
  publicView (redactConfig config) = publicView config /\
  apiToken (binarylane (redactConfig config)) =
    (if truthy (apiToken (binarylane config)) then Some "***" else None) /\
  map cc_password (cfg_connections (redactConfig config)) =
    map (fun c => if truthy (cc_password c) then Some "***" else None)
        (cfg_connections config) /\
  snd (snd (get_config os w)) = redactConfig (fst (loadConfig (disk w))).
Proof.
  intros Hpub. split; [|split; [|split; [|split]]].
  - unfold publicView in Hpub. injection Hpub as Hd He Ht Hu Hk Hc.
    unfold redactConfig, redactSecret. rewrite Hd, He, Ht, Hu, Hk.
    f_equal. now apply redact_public.
  - unfold publicView, redactConfig, redactSecret. cbn.
    assert (Ht : truthy (if truthy (apiToken (binarylane config)) then Some "***" else None)
                 = truthy (apiToken (binarylane config)))
      by (destruct (truthy (apiToken (binarylane config))); reflexivity).
    rewrite Ht. f_equal. rewrite map_map. apply map_ext. intros c.
    unfold publicConnection. cbn. now destruct (truthy (cc_password c)).
  - reflexivity.
  - unfold redactConfig. cbn [cfg_connections]. rewrite map_map. reflexivity.
  - unfold get_config. now destruct (loadConfig (disk w)).
Qed.

Lemma redaction_hides_secrets_witness :
  redactConfig sampleConfig =
  redactConfig
    (mkConfig None (mkBinaryLane true (Some "another-token") "root" None)
       (cfg_connections sampleConfig)) /\
  apiToken (binarylane (redactConfig sampleConfig)) = Some "***".
Proof.
  pose proof (redaction_hides_secrets sampleOs sampleConfig
                (mkConfig None (mkBinaryLane true (Some "another-token") "root" None)
                          (cfg_connections sampleConfig))
                sampleWorld eq_refl) as H.
  destruct H as (Heq & _ & Htok & _). split; [exact Heq|exact Htok].
Defined.

(* ================================================================== *)
(** ** Sessions *)

Ltac session_cases s :=
  destruct s as [pr tm cn en ph o eo nw sa];
  destruct pr, tm, cn, ph.

Ltac event_cases ev :=
  destruct ev as [ | ? | [?|] | ? | ? | ? | [?|] | [?|] | ? | | ? | [?|?] ].

Ltac close_case :=
  cbn in *;
  repeat match goal with
         | H : _ /\ _ |- _ => destruct H
         | H : exists _, _ |- _ => destruct H
         | H : Some _ = Some _ |- _ => injection H as H; subst
         | H : Armed _ = Armed _ |- _ => injection H as H; subst
         end;
  try discriminate; try contradiction; try congruence;
  repeat split; try discriminate; try congruence; try lia; eauto.

Lemma handle_watched op conn d s ev :
  deadlineOf op = Some d -> watched d s -> watched d (handle op conn s ev).
Proof.
  unfold watched. intros Hd H.
  destruct op; try discriminate Hd; injection Hd as <-;
    session_cases s; event_cases ev; close_case.
Qed.

Lemma expire_watched op d s :
  deadlineOf op = Some d -> watched d s -> watched d (expire op s).
Proof.
  unfold watched. intros Hd H.
  destruct op; try discriminate Hd; injection Hd as <-;
    session_cases s; close_case.
Qed.

Lemma handle_firedRight command timeout conn s ev :
  watched (timerDelay timeout) s -> firedRight timeout s ->
  firedRight timeout (handle (RunCommand command timeout) conn s ev).
Proof.
  unfold watched, firedRight. intros Hw H.
  session_cases s; event_cases ev; close_case.
Qed.

Lemma handle_reports conn s ev :
  reports s -> reports (handle TestConnection conn s ev).
Proof.
  unfold reports. intros H.
  session_cases s; event_cases ev; cbn in *; try exact I; try contradiction; exact H.
Qed.

Lemma expire_reports s : reports s -> reports (expire TestConnection s).
Proof.
  unfold reports. intros H.
  session_cases s; cbn in *; try exact I; try contradiction; exact H.
Qed.

Lemma handle_tornDown op conn s ev :
  isError ev = false -> tornDown s -> tornDown (handle op conn s ev).
Proof.
  unfold tornDown. intros He H.
  destruct op; session_cases s; event_cases ev; cbn in *;
    try discriminate; intros; try lia; try (apply H; reflexivity).
Qed.

Lemma expire_tornDown op s : tornDown s -> tornDown (expire op s).
Proof.
  unfold tornDown. intros H.
  destruct op; session_cases s; cbn in *;
    try discriminate; intros; try lia; try (apply H; reflexivity).
Qed.

(** The handler of the client's 'error' event never ends the client. *)
Lemma handle_error_ends op conn s msg :
  ends (handle op conn s (EvError msg)) = ends s.
Proof.
  destruct op; session_cases s; reflexivity.
Qed.

Lemma watched_armed d d0 s :
  watched d s -> timer s = Armed d0 ->
  promise s = Pending /\ d0 = d /\ (now s <= d)%Z /\ settledAt s = None.
Proof.
  unfold watched. intros H Et. destruct (promise s).
  - destruct H as (Ha & Hn & Hs). rewrite Et in Ha. injection Ha as ->. auto.
  - destruct H as [Hna _]. now elim (Hna d0).
  - destruct H as [Hna _]. now elim (Hna d0).
Qed.

Lemma watched_unarmed d s :
  watched d s -> (forall d0, timer s <> Armed d0) -> promise s <> Pending.
Proof.
  unfold watched. intros H Hn Hp. rewrite Hp in H. destruct H as [Ha _].
  now elim (Hn d).
Qed.

Lemma with_now_settled d t s :
  watched d s -> promise s <> Pending -> watched d (with_now t s).
Proof.
  unfold watched. destruct s as [pr tm cn en ph o eo nw sa]; cbn.
  destruct pr; [contradiction| |]; auto.
Qed.

(** Time passing keeps the watchdog invariant, and past the deadline the
    call is no longer pending. *)
Lemma advance_watched op conn d t s :
  deadlineOf op = Some d -> watched d s ->
  watched d (advance op conn t s) /\
  ((d <= t)%Z -> promise (advance op conn t s) <> Pending).
Proof.
  intros Hd H. unfold advance.
  destruct (timer s) as [ | d0 | | ] eqn:Et.
  2:{ destruct (watched_armed d d0 s H Et) as (Hp & -> & Hn & Hs).
      destruct (d <=? t)%Z eqn:E.
      - apply Z.leb_le in E.
        assert (Hw : watched d (expire op (with_now (Z.max (now s) d) s))).
        { apply expire_watched; [assumption|].
          unfold watched. destruct s as [pr tm cn en ph o eo nw sa]; cbn in *.
          subst. repeat split; lia. }
        assert (Hs' : promise (expire op (with_now (Z.max (now s) d) s)) <> Pending).
        { destruct s as [pr tm cn en ph o eo nw sa]; cbn in *. subst.
          destruct op; try discriminate Hd; cbn; discriminate. }
        split; [now apply with_now_settled|intros _].
        now destruct (expire op (with_now (Z.max (now s) d) s)).
      - apply Z.leb_gt in E. split; [|lia].
        unfold watched in *. destruct s as [pr tm cn en ph o eo nw sa]; cbn in *.
        subst. repeat split; lia. }
  all: assert (Hp : promise s <> Pending)
         by (apply (watched_unarmed d); [assumption|rewrite Et; discriminate]).
  all: split; [now apply with_now_settled|intros _; now destruct s].
Qed.

Lemma with_now_firedRight timeout t s :
  firedRight timeout s -> firedRight timeout (with_now t s).
Proof. destruct s; exact (fun H => H). Qed.

Lemma advance_firedRight command timeout conn t s :
  watched (timerDelay timeout) s -> firedRight timeout s ->
  firedRight timeout (advance (RunCommand command timeout) conn t s).
Proof.
  intros Hw H. unfold advance.
  destruct (timer s) as [ | d0 | | ] eqn:Et; try now apply with_now_firedRight.
  destruct (d0 <=? t)%Z; [|now apply with_now_firedRight].
  apply with_now_firedRight.
  destruct (watched_armed _ d0 s Hw Et) as (Hp & -> & Hn & Hs).
  unfold firedRight.
  destruct s as [pr tm cn en ph o eo nw sa]; cbn in *. subst.
  cbn. repeat split; try lia. f_equal. lia.
Qed.

Lemma with_now_reports t s : reports s -> reports (with_now t s).
Proof. destruct s; exact (fun H => H). Qed.

Lemma advance_reports conn t s :
  reports s -> reports (advance TestConnection conn t s).
Proof.
  intros H. unfold advance.
  destruct (timer s) as [ | d0 | | ] eqn:Et; try now apply with_now_reports.
  destruct (d0 <=? t)%Z; [|now apply with_now_reports].
  apply with_now_reports, expire_reports.
  destruct s; exact H.
Qed.

Lemma with_now_tornDown t s : tornDown s -> tornDown (with_now t s).
Proof. destruct s; exact (fun H => H). Qed.

Lemma advance_tornDown op conn t s :
  tornDown s -> tornDown (advance op conn t s).
Proof.
  intros H. unfold advance.
  destruct (timer s) as [ | d0 | | ] eqn:Et; try now apply with_now_tornDown.
  destruct (d0 <=? t)%Z; [|now apply with_now_tornDown].
  apply with_now_tornDown, expire_tornDown.
  destruct s; exact H.
Qed.

(** The invariants along a timed run. *)
Lemma runTimed_watched op conn d events :
  deadlineOf op = Some d ->
  forall s, watched d s -> watched d (runTimed op conn s events).
Proof.
  intros Hd. induction events as [|[t ev] events IH]; intros s H; [exact H|].
  cbn [runTimed]. apply IH, handle_watched; [assumption|].
  now apply advance_watched.
Qed.

Lemma runTimed_firedRight command timeout conn events :
  forall s, watched (timerDelay timeout) s -> firedRight timeout s ->
            firedRight timeout (runTimed (RunCommand command timeout) conn s events).
Proof.
  induction events as [|[t ev] events IH]; intros s Hw H; [exact H|].
  cbn [runTimed].
  assert (Hw1 : watched (timerDelay timeout)
                        (advance (RunCommand command timeout) conn t s))
    by now apply advance_watched.
  apply IH.
  - now apply handle_watched.
  - apply handle_firedRight; [assumption|]. now apply advance_firedRight.
Qed.

Lemma runTimed_reports conn events :
  forall s, reports s -> reports (runTimed TestConnection conn s events).
Proof.
  induction events as [|[t ev] events IH]; intros s H; [exact H|].
  cbn [runTimed]. now apply IH, handle_reports, advance_reports.
Qed.

Lemma runTimed_tornDown op conn events :
  Forall (fun e => isError (snd e) = false) events ->
  forall s, tornDown s -> tornDown (runTimed op conn s events).
Proof.
  induction 1 as [|[t ev] events He _ IH]; intros s H; [exact H|].
  cbn [runTimed]. apply IH, handle_tornDown; [exact He|].
  now apply advance_tornDown.
Qed.

(** The invariants at the call. *)
Lemma timerDelay_bounds (t : Z) :
  (1 <= timerDelay t)%Z /\ (timerDelay t <= Z.max t 1)%Z.
Proof.
  unfold timerDelay. destruct ((1 <=? t)%Z && (t <=? 2147483647)%Z) eqn:E; [|lia].
  apply andb_true_iff in E as [E1 E2]. apply Z.leb_le in E1. lia.
Qed.

Lemma deadline_positive op d : deadlineOf op = Some d -> (0 <= d)%Z.
Proof.
  destruct op; try discriminate; intros [= <-]; [|lia].
  pose proof (timerDelay_bounds timeout). lia.
Qed.

Lemma openSession_watched os op conn d :
  deadlineOf op = Some d -> watched d (openSession os op conn).
Proof.
  intros Hd. pose proof (deadline_positive op d Hd) as Hpos.
  unfold openSession.
  destruct op; try discriminate Hd; injection Hd as <-;
    destruct (getConnectConfig os conn) as [config|e];
    try destruct (connectThrows os config);
    cbn; repeat split; try discriminate; try lia; eauto.
Qed.

Lemma start_watched os st op nm d :
  deadlineOf op = Some d -> watched d (start os st op nm).
Proof.
  intros Hd. pose proof (deadline_positive op d Hd) as Hpos.
  unfold start. destruct (getConnection st nm) as [r|].
  - destruct op; try discriminate Hd; now apply openSession_watched.
  - cbn. split; [discriminate|]. exists 0%Z. split; [reflexivity|assumption].
Qed.

Lemma start_firedRight os st command timeout nm :
  firedRight timeout (start os st (RunCommand command timeout) nm).
Proof.
  unfold start. destruct (getConnection st nm) as [r|].
  - unfold openSession.
    destruct (getConnectConfig os (heap st r)) as [config|e];
      try destruct (connectThrows os config); unfold firedRight; cbn; auto.
  - unfold firedRight; cbn. split; [eauto|exact I].
Qed.

Lemma start_reports os st nm r :
  getConnection st nm = Some r -> reports (start os st TestConnection nm).
Proof.
  intros Hr. unfold start. rewrite Hr. unfold openSession.
  destruct (getConnectConfig os (heap st r)) as [config|e];
    try destruct (connectThrows os config); exact I.
Qed.

Lemma openSession_tornDown os op conn : tornDown (openSession os op conn).
Proof.
  unfold openSession, tornDown.
  destruct op; destruct (getConnectConfig os conn) as [config|e];
    try destruct (connectThrows os config); cbn; discriminate.
Qed.

Lemma start_tornDown os st op nm : tornDown (start os st op nm).
Proof.
  unfold start. destruct (getConnection st nm) as [r|].
  - destruct op; try apply openSession_tornDown.
    destruct (negb (existsSync os localPath)); [|apply openSession_tornDown].
    unfold tornDown; cbn; discriminate.
  - unfold tornDown; cbn; discriminate.
Qed.

(** ** [testConnection] *)

(** The claim C1 fails for a name that is not in the registry: the
    method throws before it creates its promise, so the call is rejected
    with the unknown-connection error. *)
Lemma test_unknown_connection :
  getConnection loaded "ghost" = None /\
  promise (testConnection sampleOs loaded "ghost" [] 10000) =
    Rejected (UnknownConnection "ghost" false).
Proof. split; reflexivity. Qed.

(** C1, amended.  For every name that is in the registry, whatever the
    transport does and whenever, [testConnection] is never rejected: its
    promise is pending or resolved with a report of success or failure,
    and once its 10000 ms watchdog is due it is resolved, not later than
    that.  In particular a failure to resolve the authentication, an
    error of the network or the handshake, and the timeout are all
    reported in the result.  For a name that is not in the registry the
    call is rejected with the unknown-connection error. *)
Theorem test_connection_reports (os : Os) (st : Manager) (nm : string) (r : Ref)
    (events : list (Z * Event)) (until : Z) :
  getConnection st nm = Some r ->
  let s := testConnection os st nm events until in
  (forall e, promise s <> Rejected e) /\
  (promise s = Pending \/
   exists ok msg latencyMs, promise s = Resolved (TestResult ok msg latencyMs)) /\
  ((10000 <= until)%Z ->
   exists ok msg latencyMs t,
     promise s = Resolved (TestResult ok msg latencyMs) /\
     settledAt s = Some t /\ (t <= 10000)%Z).
Proof.
  intros Hr. cbn zeta. unfold testConnection, operate.
  set (conn := connOf st nm).
  assert (Hrep : reports (advance TestConnection conn until
                            (runTimed TestConnection conn
                               (start os st TestConnection nm) events)))
    by (apply advance_reports, runTimed_reports, (start_reports os st nm r Hr)).
  assert (Hw0 : watched 10000 (runTimed TestConnection conn
                                 (start os st TestConnection nm) events))
    by (apply runTimed_watched; [reflexivity|now apply start_watched]).
  destruct (advance_watched TestConnection conn 10000 until _ eq_refl Hw0) as [Hw Hdue].
  set (s := advance TestConnection conn until _) in *.
  unfold reports in Hrep. unfold watched in Hw.
  destruct (promise s) as [|v|e] eqn:Ep.
  - split; [discriminate|]. split; [now left|]. intros Hu. now elim (Hdue Hu).
  - destruct v; try contradiction.
    split; [discriminate|]. split; [right; eauto|]. intros _.
    destruct Hw as (_ & t & Ht & Hle). eauto 8.
  - contradiction.
Qed.

(** A registered host that never answers: the probe reports the timeout
    at 10000 ms. *)
Lemma test_connection_reports_witness :
  exists ok msg latencyMs t,
    promise (testConnection sampleOs loaded "db1" [] 10000) =
      Resolved (TestResult ok msg latencyMs) /\
    settledAt (testConnection sampleOs loaded "db1" [] 10000) = Some t /\
    (t <= 10000)%Z.
Proof.
  exact (proj2 (proj2 (test_connection_reports sampleOs loaded "db1" 3 [] 10000 eq_refl))
               ltac:(lia)).
Defined.

(** The four reports of [testConnection]. *)
Example test_success :
  promise (testConnection sampleOs loaded "db1" [(42%Z, EvReady)] 42) =
  Resolved (TestResult true "Connected successfully to 192.168.1.11:22" (Some 42%Z)).
Proof. reflexivity. Qed.

Example test_network_error :
  promise (testConnection sampleOs loaded "db1"
             [(7%Z, EvError "connect ECONNREFUSED 192.168.1.11:22")] 7) =
  Resolved (TestResult false "Connection failed: connect ECONNREFUSED 192.168.1.11:22" None).
Proof. reflexivity. Qed.

Example test_timeout :
  promise (testConnection sampleOs loaded "db1" [] 10000) =
  Resolved (TestResult false "Connection timed out" None).
Proof. reflexivity. Qed.

Example test_configuration_error :
  promise (testConnection (mkOs "/home/u" (String.concat "/") (fun _ => NoEntry)
                                (fun _ => None))
                          loaded "web1" [] 0) =
  Resolved (TestResult false
              "Configuration error: Private key not found: /home/u/.ssh/id_rsa" None).
Proof. reflexivity. Qed.

(** ** [runCommand] and its watchdog *)

Lemma append_empty (s : string) : s ++ "" = s.
Proof. induction s as [|c s IH]; cbn; [reflexivity|now rewrite IH]. Qed.

Lemma append_assoc3 (a b c : string) : (a ++ b) ++ c = a ++ (b ++ c).
Proof. induction a as [|x a IH]; cbn; [reflexivity|now rewrite IH]. Qed.

Lemma advance_early op conn d t s :
  timer s = Armed d -> (t < d)%Z -> advance op conn t s = with_now (Z.max (now s) t) s.
Proof.
  intros Ht Hlt. unfold advance. rewrite Ht.
  apply Z.leb_gt in Hlt. now rewrite Hlt.
Qed.

Lemma advance_unarmed op conn t s :
  (forall d, timer s <> Armed d) -> advance op conn t s = with_now (Z.max (now s) t) s.
Proof.
  intros Ht. unfold advance. destruct (timer s) eqn:E; try reflexivity.
  now elim (Ht deadline).
Qed.

Lemma start_connected os st op nm r config :
  getConnection st nm = Some r ->
  getConnectConfig os (heap st r) = Ok config ->
  connectThrows os config = None ->
  match op with UploadFile localPath _ => existsSync os localPath = true | _ => True end ->
  start os st op nm =
  with_connected true
    (match deadlineOf op with
     | Some d => with_timer (Armed d) newSession
     | None => newSession
     end).
Proof.
  intros Hget Hauth Hconn Hop. unfold start. rewrite Hget.
  destruct op; try rewrite Hop; unfold openSession; rewrite Hauth, Hconn; reflexivity.
Qed.

Lemma output_accumulates command T conn d chunks :
  Forall (fun te => isOutput (snd te) = true /\ (fst te < d)%Z) chunks ->
  forall en o eo nw,
  exists nw',
    runTimed (RunCommand command T) conn
      (mkSession Pending (Armed d) true en Active o eo nw None) chunks =
    mkSession Pending (Armed d) true en Active
      (o ++ stdoutText chunks) (eo ++ stderrText chunks) nw' None.
Proof.
  induction 1 as [|[t ev] chunks [Hout Ht] _ IH]; intros en o eo nw.
  - exists nw. cbn. now rewrite !append_empty.
  - cbn [runTimed]. rewrite (advance_early _ _ d) by first [reflexivity | cbn in *; assumption].
    destruct ev; try discriminate Hout.
    + destruct (IH en (o ++ data) eo (Z.max nw t)) as [nw' E].
      exists nw'. rewrite append_assoc3 in E. exact E.
    + destruct (IH en o (eo ++ data) (Z.max nw t)) as [nw' E].
      exists nw'. rewrite append_assoc3 in E. exact E.
Qed.

Lemma runTimed_app op conn s events1 events2 :
  runTimed op conn s (events1 ++ events2) =
  runTimed op conn (runTimed op conn s events1) events2.
Proof.
  revert s. induction events1 as [|[t ev] events1 IH]; intros s; [reflexivity|].
  cbn [app runTimed]. apply IH.
Qed.

(** A command that the transport runs to its end before the watchdog
    is due: the state after the 'close' event. *)
Lemma command_completes os st nm command T r config t1 t2 tc chunks code :
  getConnection st nm = Some r ->
  getConnectConfig os (heap st r) = Ok config ->
  connectThrows os config = None ->
  (t1 < timerDelay T)%Z -> (t2 < timerDelay T)%Z -> (tc < timerDelay T)%Z ->
  Forall (fun te => isOutput (snd te) = true /\ (fst te < timerDelay T)%Z) chunks ->
  exists nw,
    runTimed (RunCommand command T) (connOf st nm) (start os st (RunCommand command T) nm)
      ((t1, EvReady) :: (t2, EvExec None) :: chunks ++ [(tc, EvClose code)]) =
    mkSession (Resolved (CommandResult (stdoutText chunks) (stderrText chunks)
                                       (orDefault code 0)))
              Cleared true 1 Finished (stdoutText chunks) (stderrText chunks) nw (Some nw).
Proof.
  intros Hget Hauth Hconn H1 H2 Hc Hchunks.
  rewrite (start_connected os st (RunCommand command T) nm r config Hget Hauth Hconn I).
  cbn [deadlineOf].
  set (d := timerDelay T) in *.
  set (op := RunCommand command T).
  set (conn := connOf st nm).
  set (s0 := with_connected true (with_timer (Armed d) newSession)).
  cbn [runTimed].
  assert (E1 : handle op conn (advance op conn t1 s0) EvReady =
               mkSession Pending (Armed d) true 0 Requested "" "" (Z.max 0 t1) None).
  { rewrite (advance_early op conn d t1 s0) by first [reflexivity | assumption].
    reflexivity. }
  rewrite E1. clear E1.
  assert (E2 : handle op conn
                 (advance op conn t2
                    (mkSession Pending (Armed d) true 0 Requested "" "" (Z.max 0 t1) None))
                 (EvExec None) =
               mkSession Pending (Armed d) true 0 Active "" ""
                         (Z.max (Z.max 0 t1) t2) None).
  { rewrite (advance_early op conn d t2) by first [reflexivity | assumption].
    reflexivity. }
  rewrite E2. clear E2.
  rewrite runTimed_app.
  destruct (output_accumulates command T conn d chunks Hchunks
              0 "" "" (Z.max (Z.max 0 t1) t2)) as [nw E].
  fold op in E. rewrite E. clear E.
  cbn [runTimed].
  rewrite (advance_early op conn d tc) by first [reflexivity | assumption].
  exists (Z.max nw tc). reflexivity.
Qed.


(** C4.  [runCommand] arms a watchdog for the timeout [T] of the
    caller, whatever it is (30000 ms when the caller gives none), which
    [setTimeout] turns into a delay [d]: [T] itself when [T] is between
    1 and 2^31 - 1, and 1 otherwise.  Whatever the transport does, and
    if it does nothing at all: when the clock reaches [d] the call has
    settled, at a time not later than [d], so it never hangs; if the
    call was still pending when the watchdog became due, the watchdog
    fired, the client was ended and the call is rejected with the
    timed-out error, whose message names [T]; a watchdog that is found
    fired has ended the client and rejected the call in this way; a call
    that has settled leaves no armed timer behind, and a call that
    resolved has cleared it.  And a command that the transport runs to
    its end before the watchdog is due does resolve: the handler of
    'close' clears the watchdog, which is found cleared, not fired,
    however long one waits afterwards, the client having been ended once
    only. *)
Theorem run_command_timeout (os : Os) (st : Manager) (nm command : string)
    (timeout : option Z) (events : list (Z * Event)) (until : Z) :
  let T := match timeout with Some t => t | None => 30000%Z end in
  let op := RunCommand command T in
  let d := timerDelay T in
  let before := runTimed op (connOf st nm) (start os st op nm) events in
  let s := runCommand os st nm command timeout events until in
  ((1 <= T <= 2147483647)%Z -> d = T) /\
  (~ (1 <= T <= 2147483647)%Z -> d = 1%Z) /\
  (1 <= d <= Z.max T 1)%Z /\
  ((d <= until)%Z ->
   promise s <> Pending /\ exists t, settledAt s = Some t /\ (t <= d)%Z) /\
  ((d <= until)%Z -> promise before = Pending ->
   timer s = Fired /\ promise s = Rejected (CommandTimedOut T) /\
   message (CommandTimedOut T) = "Command timed out after " ++ showZ T ++ "ms" /\
   settledAt s = Some d /\ 1 <= ends s) /\
  (timer s = Fired ->
   promise s = Rejected (CommandTimedOut T) /\ 1 <= ends s /\ settledAt s = Some d) /\
  (promise s <> Pending -> forall d', timer s <> Armed d') /\
  (forall v, promise s = Resolved v -> timer s = Cleared) /\
  (forall r config t1 t2 tc chunks code,
     getConnection st nm = Some r ->
     getConnectConfig os (heap st r) = Ok config ->
     connectThrows os config = None ->
     (t1 < d)%Z -> (t2 < d)%Z -> (tc < d)%Z ->
     Forall (fun te => isOutput (snd te) = true /\ (fst te < d)%Z) chunks ->
     events = (t1, EvReady) :: (t2, EvExec None) :: chunks ++ [(tc, EvClose code)] ->
     timer before = Cleared /\ settledAt before <> None /\
     timer s = Cleared /\ ends s = 1 /\
     promise s = Resolved (CommandResult (stdoutText chunks) (stderrText chunks)
                                         (orDefault code 0))).
Proof.
  cbn zeta. unfold runCommand, operate.
  change (timeoutOr30000 timeout)
    with (match timeout with Some t => t | None => 30000%Z end).
  set (T := match timeout with Some t => t | None => 30000%Z end).
  set (op := RunCommand command T). set (conn := connOf st nm).
  set (before := runTimed op conn (start os st op nm) events).
  assert (Hw0 : watched (timerDelay T) before)
    by (apply runTimed_watched; [reflexivity|now apply start_watched]).
  assert (Hf0 : firedRight T before)
    by (apply runTimed_firedRight;
        [now apply start_watched|apply start_firedRight]).
  destruct (advance_watched op conn (timerDelay T) until before eq_refl Hw0) as [Hw Hdue].
  pose proof (advance_firedRight command T conn until before Hw0 Hf0) as Hf.
  fold op in Hf.
  split.
  { intros [H1 H2]. unfold timerDelay.
    apply Z.leb_le in H1, H2. now rewrite H1, H2. }
  split.
  { intros Hn. unfold timerDelay.
    destruct ((1 <=? T)%Z && (T <=? 2147483647)%Z) eqn:E; [|reflexivity].
    apply andb_true_iff in E as [E1 E2]. apply Z.leb_le in E1, E2. elim Hn. lia. }
  split; [apply timerDelay_bounds|].
  split; [|split; [|split; [|split; [|split]]]].
  - intros Hu. specialize (Hdue Hu). split; [exact Hdue|].
    unfold watched in Hw. destruct (promise (advance op conn until before));
      [contradiction| |]; destruct Hw as (_ & t & Ht & Hle); eauto.
  - intros Hu Hp. clear Hw Hf Hdue.
    unfold watched in Hw0. rewrite Hp in Hw0. destruct Hw0 as (Ha & Hn & Hs).
    unfold advance. rewrite Ha.
    apply Z.leb_le in Hu. rewrite Hu.
    destruct before as [pr tm cn en ph o eo nw sa]; cbn [promise timer now settledAt] in *.
    subst. cbn [expire with_now with_timer client_end reject settle with_promise
                promise timer connected ends phase out errOut now settledAt op].
    split; [reflexivity|]. split; [reflexivity|]. split; [reflexivity|].
    split; [f_equal; lia|lia].
  - intros Ht. unfold firedRight in Hf. rewrite Ht in Hf. tauto.
  - intros Hp d' Ha. apply Hp.
    unfold firedRight in Hf. rewrite Ha in Hf. tauto.
  - intros v Hv. unfold firedRight in Hf. rewrite Hv in Hf. tauto.
  - intros r config t1 t2 tc chunks code Hget Hauth Hconn H1 H2 Hc Hchunks Hev.
    destruct (command_completes os st nm command T r config t1 t2 tc chunks code
                Hget Hauth Hconn H1 H2 Hc Hchunks) as [nw E].
    unfold before. rewrite Hev. fold op conn in E. rewrite E.
    rewrite advance_unarmed by (cbn; discriminate).
    cbn. split; [reflexivity|]. split; [discriminate|].
    split; [reflexivity|]. split; reflexivity.
Qed.

(** An unreachable host and a caller that allows 5000 ms: nothing ever
    comes back, and the call fails with the timed-out error when its
    5000 ms are over.  A command that ends after 51 ms under the default
    timeout: its watchdog is found cleared a minute later. *)
Lemma run_command_timeout_witness :
  promise (runCommand sampleOs loaded "db1" "uptime" (Some 5000%Z) [] 5000) =
    Rejected (CommandTimedOut 5000) /\
  settledAt (runCommand sampleOs loaded "db1" "uptime" (Some 5000%Z) [] 5000) = Some 5000%Z /\
  1 <= ends (runCommand sampleOs loaded "db1" "uptime" (Some 5000%Z) [] 5000) /\
  timer (runCommand sampleOs loaded "db1" "uptime" None
           [(30%Z, EvReady); (35%Z, EvExec None); (50%Z, EvStdout "up 3 days");
            (51%Z, EvClose None)] 60000) = Cleared.
Proof.
  pose proof (run_command_timeout sampleOs loaded "db1" "uptime" (Some 5000%Z) [] 5000) as H.
  pose proof (run_command_timeout sampleOs loaded "db1" "uptime" None
                [(30%Z, EvReady); (35%Z, EvExec None); (50%Z, EvStdout "up 3 days");
                 (51%Z, EvClose None)] 60000) as H'.
  cbn zeta in H, H'.
  destruct H as (_ & _ & _ & _ & H & _).
  destruct H' as (_ & _ & _ & _ & _ & _ & _ & _ & H').
  destruct (H ltac:(apply Z.leb_le; reflexivity) eq_refl) as (_ & Hp & _ & Hs & He).
  destruct (H' 3 (mkConnectConfig "192.168.1.11" (Some 22%Z) "admin" None (Some "secret"))
               30%Z 35%Z 51%Z [(50%Z, EvStdout "up 3 days")] None
               eq_refl eq_refl eq_refl eq_refl eq_refl eq_refl
               ltac:(repeat constructor) eq_refl) as (_ & _ & Ht & _).
  split; [exact Hp|]. split; [exact Hs|]. split; [exact He|exact Ht].
Defined.

Example run_command_completes :
  let s := runCommand sampleOs loaded "db1" "uptime" (Some 30000%Z)
             [(30%Z, EvReady); (35%Z, EvExec None); (50%Z, EvStdout "up 3 days");
              (51%Z, EvClose None)] 60 in
  promise s = Resolved (CommandResult "up 3 days" "" 0) /\
  timer s = Cleared /\ ends s = 1 /\ settledAt s = Some 51%Z.
Proof. cbn zeta. repeat split; reflexivity. Qed.

Example run_command_message :
  message (CommandTimedOut 30000) = "Command timed out after 30000ms".
Proof. reflexivity. Qed.

(** ** Teardown *)

(** The claim C2 fails on the client's 'error' event: the connection to
    db1 is refused, [runCommand] and [uploadFile] are rejected with the
    error of the transport, and neither has called [client.end()] on the
    client it connected. *)
Lemma network_error_without_end :
  let refused := [(40%Z, EvError "connect ECONNREFUSED 192.168.1.11:22")] in
  let s := runCommand sampleOs loaded "db1" "uptime" (Some 30000%Z) refused 40 in
  let u := uploadFile sampleOs loaded "db1" "/tmp/report.txt" "/srv/report.txt" refused 40 in
  promise s = Rejected (LibraryError "connect ECONNREFUSED 192.168.1.11:22") /\
  connected s = true /\ ends s = 0 /\
  promise u = Rejected (LibraryError "connect ECONNREFUSED 192.168.1.11:22") /\
  connected u = true /\ ends u = 0.
Proof. cbn zeta. repeat split; reflexivity. Qed.

(** C2, amended.  For each of the six operations, as long as the client
    raises no 'error' event: when the call has settled (with the result,
    with an error reported by the remote action, or by the watchdog) and
    the operation had connected its client, it has called [client.end()]
    on it.  The handler of the client's 'error' event itself never calls
    [client.end()]: there the operation clears its watchdog if it has
    one and settles, and the closing of the transport is left to the
    transport library. *)
Theorem teardown_without_client_error (os : Os) (st : Manager) (op : Op) (nm : string)
    (events : list (Z * Event)) (until : Z) :
  Forall (fun e => isError (snd e) = false) events ->
  let s := operate os st op nm events until in
  (settled s = true -> connected s = true -> 1 <= ends s) /\
  (forall s0 msg, ends (handle op (connOf st nm) s0 (EvError msg)) = ends s0).
Proof.
  intros Hev. cbn zeta. split.
  - unfold operate. apply advance_tornDown, runTimed_tornDown; [exact Hev|].
    apply start_tornDown.
  - intros s0 msg. apply handle_error_ends.
Qed.

(** An upload that the remote side refuses: the client is ended before
    the call is rejected. *)
Lemma teardown_without_client_error_witness :
  let s := uploadFile sampleOs loaded "db1" "/tmp/report.txt" "/srv/report.txt"
             [(30%Z, EvReady); (31%Z, EvSftp None);
              (60%Z, EvTransferred (Some "Permission denied"))] 60 in
  promise s = Rejected (LibraryError "Permission denied") /\ 1 <= ends s.
Proof.
  cbn zeta. split; [reflexivity|].
  apply (teardown_without_client_error sampleOs loaded
           (UploadFile "/tmp/report.txt" "/srv/report.txt") "db1"
           [(30%Z, EvReady); (31%Z, EvSftp None);
            (60%Z, EvTransferred (Some "Permission denied"))] 60).
  - repeat constructor.
  - reflexivity.
  - reflexivity.
Defined.

(* ================================================================== *)
(** * Further properties of the code *)

(** ** [addConnection], [removeConnection], [getConnection], [listConnections] *)



Lemma map_has_In (m : Registry) (k : string) :
  map_has m k = true <-> In k (map_keys m).
Proof.
  rewrite map_has_keys, existsb_exists. split.
  - intros [x [Hin E]]. apply String.eqb_eq in E. now subst.
  - intros Hin. exists k. split; [assumption|apply String.eqb_refl].
Qed.

Lemma map_keys_set (m : Registry) (k : string) (v : Ref) :
  map_keys (map_set m k v) =
  if map_has m k then map_keys m else (map_keys m ++ [k])%list.
Proof.
  induction m as [|[k' v'] m IH]; simpl; [reflexivity|].
  destruct (k' =? k) eqn:E; simpl; [reflexivity|].
  rewrite IH. now destruct (map_has m k).
Qed.

Lemma map_set_In (m : Registry) (k k0 : string) (v v0 : Ref) :
  In (k0, v0) (map_set m k v) -> (k0, v0) = (k, v) \/ In (k0, v0) m.
Proof.
  induction m as [|[k' v'] m IH]; simpl.
  - intros [H|[]]. left. now symmetry.
  - destruct (k' =? k) eqn:E; simpl.
    + apply String.eqb_eq in E. subst k'. intros [H|H]; [left; now symmetry|auto].
    + intros [H|H]; [auto|]. destruct (IH H); auto.
Qed.

Lemma map_delete_In (m : Registry) (k k0 : string) (v0 : Ref) :
  In (k0, v0) (fst (map_delete m k)) -> In (k0, v0) m.
Proof.
  induction m as [|[k' v'] m IH]; simpl; [tauto|].
  destruct (k' =? k); simpl; [auto|].
  destruct (map_delete m k) as [m' b]. simpl in *. intros [H|H]; auto.
Qed.

Lemma map_delete_NoDup (m : Registry) (k : string) :
  NoDup (map_keys m) -> NoDup (map_keys (fst (map_delete m k))).
Proof.
  induction m as [|[k' v'] m IH]; simpl; intros ND; [constructor|].
  inversion ND as [|? ? Hn ND']; subst.
  destruct (k' =? k); simpl; [assumption|].
  pose proof (map_delete_In m k) as Hin.
  destruct (map_delete m k) as [m' b]. simpl in *.
  constructor; [|now apply IH].
  intros H. apply Hn. unfold map_keys in *.
  apply in_map_iff in H as [[k1 v1] [E H]]. simpl in E. subst k1.
  apply in_map_iff. exists (k', v1). split; [reflexivity|now apply Hin].
Qed.

Lemma map_get_None (m : Registry) (k : string) :
  map_get m k = None <-> ~ In k (map_keys m).
Proof.
  induction m as [|[k' v'] m IH]; simpl; [tauto|].
  destruct (k' =? k) eqn:E.
  - apply String.eqb_eq in E. split; [discriminate|]. intros H. elim H. now left.
  - apply String.eqb_neq in E. rewrite IH. tauto.
Qed.

Lemma map_delete_gone (m : Registry) (k : string) :
  NoDup (map_keys m) -> map_get (fst (map_delete m k)) k = None.
Proof.
  induction m as [|[k' v'] m IH]; simpl; intros ND; [reflexivity|].
  inversion ND as [|? ? Hn ND']; subst.
  destruct (k' =? k) eqn:E.
  - apply String.eqb_eq in E. subst k'. simpl. now apply map_get_None.
  - specialize (IH ND'). destruct (map_delete m k) as [m' b]. simpl in *.
    now rewrite E.
Qed.

Lemma map_delete_absent (m : Registry) (k : string) :
  map_has m k = false -> map_delete m k = (m, false).
Proof.
  induction m as [|[k' v'] m IH]; simpl; [reflexivity|].
  destruct (k' =? k); [discriminate|]. intros H. now rewrite IH.
Qed.

Lemma map_delete_snoc (m : Registry) (k : string) (v : Ref) :
  map_has m k = false -> map_delete (m ++ [(k, v)])%list k = (m, true).
Proof.
  induction m as [|[k' v'] m IH]; simpl.
  - now rewrite String.eqb_refl.
  - destruct (k' =? k); [discriminate|]. intros H. now rewrite IH.
Qed.

Lemma map_has_get (m : Registry) (k : string) :
  map_has m k = match map_get m k with Some _ => true | None => false end.
Proof.
  induction m as [|[k' v'] m IH]; simpl; [reflexivity|].
  now destruct (k' =? k).
Qed.


Lemma call_sameKeys home st c : sameKeys (heap (call home st c)) (heap st).
Proof.
  destruct c as [sources|r|nm]; cbn [call].
  - intros r0. apply loaded_name.
  - unfold addConnection. cbn [heap]. apply sameKeys_write.
  - unfold removeConnection. destruct (map_delete (connections st) nm).
    intros r0. split; reflexivity.
Qed.

Lemma call_consistent home st c : consistent st -> consistent (call home st c).
Proof.
  intros [ND Hk]. destruct c as [sources|r|nm]; cbn [call].
  - destruct (loadConnections_accepted home sources st) as (Hc & _ & _).
    unfold consistent. split.
    + rewrite Hc. unfold map_keys. rewrite map_map. cbn. apply accepted_NoDup.
    + intros k r Hin. rewrite Hc in Hin.
      apply in_map_iff in Hin as [r0 [E _]]. unfold entry in E. injection E as <- <-.
      apply loaded_name.
  - unfold addConnection, consistent. cbn [heap connections].
    pose proof (sameKeys_write home (heap st) r) as HK.
    rewrite acceptUpdate_name. split.
    + rewrite map_keys_set. destruct (map_has (connections st) (name (heap st r))) eqn:E;
        [assumption|].
      apply NoDup_app; [assumption|repeat constructor; intros []|].
      intros x Hx [<-|[]]. apply map_has_In in Hx. congruence.
    + intros k r0 Hin. destruct (HK r0) as [-> _].
      apply map_set_In in Hin as [E|Hin]; [now injection E as -> ->|now apply Hk].
  - unfold removeConnection.
    pose proof (map_delete_NoDup (connections st) nm ND) as ND'.
    pose proof (map_delete_In (connections st) nm) as Hin'.
    unfold consistent.
    destruct (map_delete (connections st) nm) as [m b]. cbn [fst heap connections] in *.
    split; [assumption|]. intros k r Hin. now apply Hk, Hin'.
Qed.

Lemma calls_consistent home calls :
  forall st, consistent st -> consistent (fold_left (call home) calls st).
Proof.
  induction calls as [|c calls IH]; intros st H; [exact H|].
  cbn [fold_left]. now apply IH, call_consistent.
Qed.

Lemma newManager_consistent h : consistent (newManager h).
Proof. split; [constructor|intros k r []]. Qed.

Lemma listing_names st :
  consistent st -> map info_name (listConnections st) = map_keys (connections st).
Proof.
  intros [_ Hk]. unfold listConnections, map_values, map_keys.
  rewrite !map_map. cbn [info_name]. apply map_ext_in.
  intros [k r] Hin. cbn. now apply Hk.
Qed.

(** X2.  Whatever sequence of merges, additions and removals a manager
    goes through from its creation, its listing never shows a name twice,
    and every name resolves to an object of that name. *)
Theorem registry_names_unique (home : string) (h : Heap) (calls : list RegistryCall) :
  let st := fold_left (call home) calls (newManager h) in
  NoDup (map info_name (listConnections st)) /\
  (forall nm r, getConnection st nm = Some r -> name (heap st r) = nm).
Proof.
  cbn zeta.
  pose proof (calls_consistent home calls _ (newManager_consistent h)) as Hc.
  split.
  - rewrite listing_names by assumption. apply Hc.
  - intros nm r Hget. apply (proj2 Hc). now apply map_get_In.
Qed.

(** X3.  After [removeConnection], in any manager however it was built,
    the name no longer resolves and the listing no longer shows it; when
    the name was not there the call returns [false] and changes nothing. *)
Theorem remove_then_get (home : string) (h : Heap) (calls : list RegistryCall)
    (nm : string) :
  let st := fold_left (call home) calls (newManager h) in
  let st' := fst (removeConnection nm st) in
  getConnection st' nm = None /\
  ~ In nm (map info_name (listConnections st')) /\
  (if map_has (connections st) nm then True
   else removeConnection nm st = (st, false)).
Proof.
  cbn zeta.
  pose proof (calls_consistent home calls _ (newManager_consistent h)) as Hc.
  set (st := fold_left (call home) calls (newManager h)) in *.
  pose proof (call_consistent home st (CallRemove nm) Hc) as Hc'. cbn [call] in Hc'.
  assert (Hget : getConnection (fst (removeConnection nm st)) nm = None).
  { unfold getConnection, removeConnection.
    pose proof (map_delete_gone (connections st) nm (proj1 Hc)) as Hg.
    now destruct (map_delete (connections st) nm). }
  split; [exact Hget|]. split.
  - rewrite listing_names by assumption. now apply map_get_None.
  - destruct (map_has (connections st) nm) eqn:E; [exact I|].
    unfold removeConnection. rewrite (map_delete_absent _ _ E). now destruct st.
Qed.

(** X4.  Adding a record under a name the registry does not have and
    removing that name again gives back the map as it was, and the
    removal reports [true]. *)
Theorem add_then_remove (home : string) (r : Ref) (st : Manager) :
  getConnection st (name (heap st r)) = None ->
  let st' := addConnection home r st in
  connections (fst (removeConnection (name (heap st r)) st')) = connections st /\
  snd (removeConnection (name (heap st r)) st') = true.
Proof.
  intros Hget. cbn zeta.
  assert (Hhas : map_has (connections st) (name (heap st r)) = false).
  { rewrite map_has_get. unfold getConnection in Hget. now rewrite Hget. }
  unfold addConnection, removeConnection. cbn [heap connections].
  rewrite acceptUpdate_name, (map_set_fresh _ _ _ Hhas), (map_delete_snoc _ _ _ Hhas).
  split; reflexivity.
Qed.

Lemma add_then_remove_witness :
  connections (fst (removeConnection "web1" (addConnection "/home/u" 0 sampleManager))) = []
  /\ snd (removeConnection "web1" (addConnection "/home/u" 0 sampleManager)) = true.
Proof.
  exact (add_then_remove "/home/u" 0 sampleManager eq_refl).
Defined.

(** ** What a merge lists *)

Lemma accepted_names_iff h refs :
  forall seen n,
    In n (map (fun r => name (h r)) (accepted h seen refs)) <->
    existsb (String.eqb n) seen = false /\
    exists r, In r refs /\ wellFormed (h r) = true /\ name (h r) = n.
Proof.
  induction refs as [|r0 refs IH]; intros seen n; cbn [accepted].
  - cbn. split; [tauto|]. intros [_ [r [[] _]]].
  - destruct (wellFormed (h r0)) eqn:Hwf; cbn [andb].
    + destruct (existsb (String.eqb (name (h r0))) seen) eqn:Hseen; cbn [negb].
      * rewrite IH. split.
        -- intros [Hn [r [Hin Hr]]]. split; [assumption|]. exists r. split; [now right|assumption].
        -- intros [Hn [r [[<-|Hin] [Hw Hr]]]].
           ++ subst n. congruence.
           ++ split; [assumption|]. now exists r.
      * cbn [map In]. rewrite IH, existsb_snoc. split.
        -- intros [<-|[Hn [r [Hin Hr]]]].
           ++ split; [assumption|]. exists r0. split; [now left|now split].
           ++ apply orb_false_iff in Hn as [Hn _]. split; [assumption|].
              exists r. split; [now right|assumption].
        -- intros [Hn [r [[<-|Hin] [Hw Hr]]]]; [now left|].
           destruct (String.eqb_spec n (name (h r0))) as [->|Hne]; [now left|right].
           split; [now rewrite Hn|]. now exists r.
    + rewrite IH. split.
      * intros [Hn [r [Hin Hr]]]. split; [assumption|]. exists r. split; [now right|assumption].
      * intros [Hn [r [[<-|Hin] [Hw Hr]]]]; [congruence|].
        split; [assumption|]. now exists r.
Qed.

Lemma accepted_wellFormed h refs :
  forall seen r, In r (accepted h seen refs) -> In r refs /\ wellFormed (h r) = true.
Proof.
  induction refs as [|r0 refs IH]; intros seen r; cbn [accepted]; [intros []|].
  destruct (wellFormed (h r0)) eqn:Hwf; cbn [andb].
  - destruct (negb _).
    + intros [<-|Hin]; [split; [now left|assumption]|].
      destruct (IH _ _ Hin). split; [now right|assumption].
    + intros Hin. destruct (IH _ _ Hin). split; [now right|assumption].
  - intros Hin. destruct (IH _ _ Hin). split; [now right|assumption].
Qed.

Lemma listing_of_merge home sources st :
  listConnections (loadConnections home sources st) =
  map (fun r => let c := acceptUpdate home (heap st r) in
                mkInfo (name c) (host c) (port c) (username c) (source c))
      (accepted (heap st) [] (concat sources)).
Proof.
  destruct (loadConnections_accepted home sources st) as (Hc & Hh & _).
  unfold listConnections, map_values. rewrite Hc, values_entries.
  apply map_ext_in. intros r Hin. cbn zeta.
  rewrite Hh, (proj2 (memRef_In _ _) Hin). reflexivity.
Qed.

(** X5.  The names a merge lists are exactly the names of the records of
    the sources that pass the validity test: no such name is lost,
    whatever else the sources hold, and no other name appears. *)
Theorem listing_complete (home : string) (sources : list (list Ref)) (st : Manager)
    (nm : string) :
  In nm (map info_name (listConnections (loadConnections home sources st))) <->
  exists r, In r (concat sources) /\ wellFormed (heap st r) = true /\ name (heap st r) = nm.
Proof.
  rewrite listing_of_merge, map_map. cbn [info_name].
  rewrite (map_ext _ (fun r => name (heap st r)))
    by (intros r; apply acceptUpdate_name).
  rewrite accepted_names_iff. cbn [existsb]. tauto.
Qed.

(** X6.  Every connection a merge lists has a non-empty name, host and
    user name and a port that is set and is not zero, and the objects the
    registry holds all come from the sources. *)
Theorem listing_wellFormed (home : string) (sources : list (list Ref)) (st : Manager) :
  let st' := loadConnections home sources st in
  Forall (fun i => nonEmpty (info_name i) && nonEmpty (info_host i) &&
                   nonEmpty (info_username i) = true /\
                   exists p, info_port i = Some p /\ p <> 0%Z)
         (listConnections st') /\
  incl (map_values (connections st')) (concat sources).
Proof.
  cbn zeta. split.
  - rewrite listing_of_merge. apply Forall_forall. intros i Hi.
    apply in_map_iff in Hi as [r [<- Hr]]. cbn zeta.
    cbn [info_name info_host info_username info_port].
    apply accepted_wellFormed in Hr as [_ Hwf].
    rewrite acceptUpdate_name, acceptUpdate_host, acceptUpdate_username, acceptUpdate_port.
    split; [exact Hwf|]. eexists. split; [reflexivity|].
    intros E. pose proof (orDefault_nonzero (port (heap st r))) as H.
    rewrite E in H. discriminate.
  - destruct (loadConnections_accepted home sources st) as (Hc & _ & _).
    unfold map_values. rewrite Hc, values_entries.
    intros r Hr. now apply accepted_wellFormed in Hr.
Qed.

Lemma calls_sameKeys home calls :
  forall st, sameKeys (heap (fold_left (call home) calls st)) (heap st).
Proof.
  induction calls as [|c calls IH]; intros st; cbn [fold_left].
  - intros r. split; reflexivity.
  - intros r. destruct (IH (call home st c) r) as [-> ->].
    apply call_sameKeys.
Qed.

(** X7.  A merge rebuilds the registry from the sources alone: whatever
    was merged, added or removed before, the map after
    [loadConnections] is the one a new manager would get from the same
    sources, so a record that [addConnection] put in and that the
    sources do not hold is gone. *)
Theorem merge_forgets (home : string) (h : Heap) (calls : list RegistryCall)
    (sources : list (list Ref)) :
  connections (loadConnections home sources (fold_left (call home) calls (newManager h))) =
  connections (loadConnections home sources (newManager h)).
Proof.
  destruct (loadConnections_accepted home sources
              (fold_left (call home) calls (newManager h))) as (Hc1 & _ & _).
  destruct (loadConnections_accepted home sources (newManager h)) as (Hc2 & _ & _).
  pose proof (calls_sameKeys home calls (newManager h)) as HK.
  rewrite Hc1, Hc2, (accepted_sameKeys _ _ _ HK).
  apply map_ext. intros r. unfold entry. now destruct (HK r) as [-> _].
Qed.

(* ================================================================== *)
(** ** Operations that fail before they connect *)

Lemma idle_advance op conn t s :
  idle s ->
  idle (advance op conn t s) /\
  promise (advance op conn t s) = promise s /\
  ends (advance op conn t s) = ends s /\
  timer (advance op conn t s) = timer s /\
  settledAt (advance op conn t s) = settledAt s.
Proof.
  intros [Hc Ht]. unfold advance, idle.
  destruct s as [pr tm cn en ph o eo nw sa]; cbn in *.
  destruct tm; cbn; try (now elim (Ht deadline)); auto 6.
Qed.

Lemma idle_handle op conn s ev : idle s -> handle op conn s ev = s.
Proof. intros [Hc _]. unfold handle. now rewrite Hc. Qed.

Lemma idle_runTimed op conn events :
  forall s, idle s ->
    let s' := runTimed op conn s events in
    idle s' /\ promise s' = promise s /\ ends s' = ends s /\
    timer s' = timer s /\ settledAt s' = settledAt s.
Proof.
  induction events as [|[t ev] events IH]; intros s H; cbn zeta; [now auto 6|].
  cbn [runTimed].
  destruct (idle_advance op conn t s H) as (Hi & Hp & He & Ht & Hs).
  rewrite (idle_handle op conn _ ev Hi).
  destruct (IH _ Hi) as (Hi' & Hp' & He' & Ht' & Hs').
  cbn zeta in *. rewrite Hp', He', Ht', Hs'. auto 6.
Qed.

Lemma idle_operate os st op nm events until :
  idle (start os st op nm) ->
  let s := operate os st op nm events until in
  promise s = promise (start os st op nm) /\
  connected s = false /\ ends s = ends (start os st op nm) /\
  timer s = timer (start os st op nm) /\
  settledAt s = settledAt (start os st op nm).
Proof.
  intros H. cbn zeta. unfold operate.
  destruct (idle_runTimed op (connOf st nm) events _ H) as (Hi & Hp & He & Ht & Hs).
  destruct (idle_advance op (connOf st nm) until _ Hi) as (Hi' & Hp' & He' & Ht' & Hs').
  rewrite Hp', He', Ht', Hs'. split; [assumption|]. split; [apply Hi'|auto].
Qed.

(** X8.  Every operation called with a name the registry does not have
    is rejected at once with the unknown-connection error (for
    [runCommand] with the hint to list the connections), and whatever
    happens afterwards it never connects a client, arms no watchdog and
    ends nothing. *)
Theorem unknown_connection_untouched (os : Os) (st : Manager) (op : Op) (nm : string)
    (events : list (Z * Event)) (until : Z) :
  getConnection st nm = None ->
  let s := operate os st op nm events until in
  promise s = Rejected (UnknownConnection nm
                          (match op with RunCommand _ _ => true | _ => false end)) /\
  connected s = false /\ ends s = 0 /\ timer s = NoTimer /\ settledAt s = Some 0%Z.
Proof.
  intros Hget.
  assert (Hs : start os st op nm =
               thrown (UnknownConnection nm
                         (match op with RunCommand _ _ => true | _ => false end)))
    by (unfold start; now rewrite Hget).
  assert (Hi : idle (start os st op nm))
    by (rewrite Hs; split; [reflexivity|discriminate]).
  destruct (idle_operate os st op nm events until Hi) as (Hp & Hc & He & Ht & Hsa).
  cbn zeta. rewrite Hp, He, Ht, Hsa, Hs. auto.
Qed.

Lemma unknown_connection_untouched_witness :
  promise (readFile sampleOs loaded "ghost" "/etc/hosts" [(5%Z, EvReady)] 9) =
    Rejected (UnknownConnection "ghost" false) /\
  connected (readFile sampleOs loaded "ghost" "/etc/hosts" [(5%Z, EvReady)] 9) = false.
Proof.
  destruct (unknown_connection_untouched sampleOs loaded (ReadFile "/etc/hosts") "ghost"
              [(5%Z, EvReady)] 9 eq_refl) as (Hp & Hc & _).
  split; [exact Hp|exact Hc].
Defined.

(** X9.  [uploadFile] looks for the local file before anything else it
    does with the connection: when the file does not exist the call is
    rejected with the local-file error, whatever the credentials of the
    connection are, and no client is ever connected. *)
Theorem upload_missing_local_file (os : Os) (st : Manager) (nm localPath remotePath : string)
    (r : Ref) (events : list (Z * Event)) (until : Z) :
  getConnection st nm = Some r ->
  existsSync os localPath = false ->
  let s := uploadFile os st nm localPath remotePath events until in
  promise s = Rejected (LocalFileNotFound localPath) /\
  connected s = false /\ ends s = 0.
Proof.
  intros Hget Hex.
  assert (Hs : start os st (UploadFile localPath remotePath) nm =
               thrown (LocalFileNotFound localPath))
    by (unfold start; now rewrite Hget, Hex).
  assert (Hi : idle (start os st (UploadFile localPath remotePath) nm))
    by (rewrite Hs; split; [reflexivity|discriminate]).
  destruct (idle_operate os st _ nm events until Hi) as (Hp & Hc & He & _).
  cbn zeta. unfold uploadFile. rewrite Hp, He, Hs. auto.
Qed.

Lemma upload_missing_local_file_witness :
  promise (uploadFile sampleOs loaded "db1" "/tmp/absent" "/srv/x" [] 0) =
    Rejected (LocalFileNotFound "/tmp/absent").
Proof.
  exact (proj1 (upload_missing_local_file sampleOs loaded "db1" "/tmp/absent" "/srv/x" 3
                  [] 0 eq_refl eq_refl)).
Defined.

(** X10.  When the credential of a registered connection cannot be
    resolved, [runCommand], [readFile], [listDirectory] and
    [downloadFile] are rejected with the error of the resolution; the
    client is not connected, the watchdog of [runCommand] is cleared, and
    nothing the transport or the clock does later changes that. *)
Theorem auth_failure_rejects (os : Os) (st : Manager) (op : Op) (nm : string) (r : Ref)
    (e : Err) (events : list (Z * Event)) (until : Z) :
  getConnection st nm = Some r ->
  getConnectConfig os (heap st r) = Throw e ->
  match op with UploadFile _ _ | TestConnection => False | _ => True end ->
  let s := operate os st op nm events until in
  promise s = Rejected e /\ connected s = false /\ ends s = 0 /\
  (forall d, timer s <> Armed d).
Proof.
  intros Hget Hauth Hop.
  assert (Hs : promise (start os st op nm) = Rejected e /\
               idle (start os st op nm) /\ ends (start os st op nm) = 0).
  { unfold start. rewrite Hget.
    destruct op; try contradiction; unfold openSession; rewrite Hauth; cbn;
      (split; [reflexivity|split; [split; [reflexivity|discriminate]|reflexivity]]). }
  destruct Hs as (Hp0 & Hi & He0).
  destruct (idle_operate os st op nm events until Hi) as (Hp & Hc & He & Ht & _).
  cbn zeta. rewrite Hp, He, Ht. split; [assumption|]. split; [assumption|].
  split; [assumption|apply Hi].
Qed.

Lemma auth_failure_rejects_witness :
  promise (runCommand (mkOs "/home/u" (String.concat "/") (fun _ => NoEntry) (fun _ => None))
                      loaded "web1" "uptime" None [(3%Z, EvReady)] 40000) =
    Rejected (PrivateKeyNotFound "/home/u/.ssh/id_rsa").
Proof.
  exact (proj1 (auth_failure_rejects
                  (mkOs "/home/u" (String.concat "/") (fun _ => NoEntry) (fun _ => None))
                  loaded (RunCommand "uptime" 30000) "web1" 0
                  (PrivateKeyNotFound "/home/u/.ssh/id_rsa")
                  [(3%Z, EvReady)] 40000 eq_refl eq_refl I)).
Defined.

(* ================================================================== *)
(** ** What the operations return *)

(** X11.  A command that runs to its end before the watchdog is due:
    [runCommand] resolves with the standard output and the standard
    error of the remote process, each the concatenation of its own
    chunks in the order they arrived however the two streams interleave,
    and with the exit code of the 'close' event, 0 when the transport
    reports none; it has ended its client exactly once and cleared its
    watchdog. *)
Theorem run_command_output (os : Os) (st : Manager) (nm command : string)
    (timeout : option Z) (r : Ref) (config : ConnectConfig)
    (t1 t2 tc : Z) (chunks : list (Z * Event)) (code : option Z) (until : Z) :
  getConnection st nm = Some r ->
  getConnectConfig os (heap st r) = Ok config ->
  connectThrows os config = None ->
  let d := timerDelay (timeoutOr30000 timeout) in
  (t1 < d)%Z -> (t2 < d)%Z -> (tc < d)%Z ->
  Forall (fun te => isOutput (snd te) = true /\ (fst te < d)%Z) chunks ->
  let s := runCommand os st nm command timeout
             ((t1, EvReady) :: (t2, EvExec None) :: chunks ++ [(tc, EvClose code)]) until in
  promise s =
    Resolved (CommandResult (stdoutText chunks) (stderrText chunks) (orDefault code 0)) /\
  ends s = 1 /\ timer s = Cleared.
Proof.
  intros Hget Hauth Hconn d H1 H2 Hc Hchunks. cbn zeta.
  unfold runCommand, operate.
  rewrite (start_connected os st (RunCommand command (timeoutOr30000 timeout)) nm r config
             Hget Hauth Hconn I).
  cbn [deadlineOf]. fold d.
  set (op := RunCommand command (timeoutOr30000 timeout)).
  set (conn := connOf st nm).
  set (s0 := with_connected true (with_timer (Armed d) newSession)).
  cbn [runTimed].
  assert (E1 : handle op conn (advance op conn t1 s0) EvReady =
               mkSession Pending (Armed d) true 0 Requested "" "" (Z.max 0 t1) None).
  { rewrite (advance_early op conn d t1 s0) by first [reflexivity | assumption].
    reflexivity. }
  rewrite E1. clear E1.
  assert (E2 : handle op conn
                 (advance op conn t2
                    (mkSession Pending (Armed d) true 0 Requested "" "" (Z.max 0 t1) None))
                 (EvExec None) =
               mkSession Pending (Armed d) true 0 Active "" ""
                         (Z.max (Z.max 0 t1) t2) None).
  { rewrite (advance_early op conn d t2) by first [reflexivity | assumption].
    reflexivity. }
  rewrite E2. clear E2.
  rewrite runTimed_app.
  destruct (output_accumulates command (timeoutOr30000 timeout) conn d chunks Hchunks
              0 "" "" (Z.max (Z.max 0 t1) t2)) as [nw E].
  fold op in E. rewrite E. clear E.
  cbn [runTimed].
  rewrite (advance_early op conn d tc) by first [reflexivity | assumption].
  rewrite advance_unarmed by (cbn; discriminate).
  cbn. auto.
Qed.

Lemma run_command_output_witness :
  promise (runCommand sampleOs loaded "db1" "make" None
             [(10%Z, EvReady); (11%Z, EvExec None);
              (20%Z, EvStdout "cc a.c "); (21%Z, EvStderr "warning");
              (22%Z, EvStdout "ok"); (30%Z, EvClose (Some 2%Z))] 31) =
  Resolved (CommandResult "cc a.c ok" "warning" 2).
Proof.
  refine (proj1 (run_command_output sampleOs loaded "db1" "make" None 3
                   (mkConnectConfig "192.168.1.11" (Some 22%Z) "admin" None (Some "secret"))
                   10 11 30
                   [(20%Z, EvStdout "cc a.c "); (21%Z, EvStderr "warning");
                    (22%Z, EvStdout "ok")] (Some 2%Z) 31
                   eq_refl eq_refl eq_refl eq_refl eq_refl eq_refl _)).
  repeat constructor.
Defined.

Lemma chunks_accumulate remotePath conn chunks :
  Forall (fun te => isChunk (snd te) = true) chunks ->
  forall en o nw,
  exists nw',
    runTimed (ReadFile remotePath) conn
      (mkSession Pending NoTimer true en Active o "" nw None) chunks =
    mkSession Pending NoTimer true en Active (o ++ chunkText chunks) "" nw' None.
Proof.
  induction 1 as [|[t ev] chunks Hch _ IH]; intros en o nw.
  - exists nw. cbn. now rewrite append_empty.
  - cbn [runTimed]. destruct ev; try discriminate Hch.
    destruct (IH en (o ++ chunk) (Z.max nw t)) as [nw' E].
    exists nw'. rewrite append_assoc3 in E. exact E.
Qed.

(** X12.  [readFile] resolves with the chunks of the read stream
    concatenated in the order they arrived, once the stream ends; when
    the stream raises an error instead, the call is rejected with that
    error and what was read is not returned.  Either way the client was
    ended exactly once, and no watchdog was involved. *)
Theorem read_file_content (os : Os) (st : Manager) (nm remotePath : string)
    (r : Ref) (config : ConnectConfig)
    (t1 t2 te : Z) (chunks : list (Z * Event)) (failure : option string) (until : Z) :
  getConnection st nm = Some r ->
  getConnectConfig os (heap st r) = Ok config ->
  connectThrows os config = None ->
  Forall (fun te => isChunk (snd te) = true) chunks ->
  let last := match failure with Some msg => EvReadError msg | None => EvEnd end in
  let s := readFile os st nm remotePath
             ((t1, EvReady) :: (t2, EvSftp None) :: chunks ++ [(te, last)]) until in
  promise s = match failure with
              | Some msg => Rejected (LibraryError msg)
              | None => Resolved (FileContent (chunkText chunks))
              end /\
  ends s = 1 /\ timer s = NoTimer.
Proof.
  intros Hget Hauth Hconn Hchunks. cbn zeta.
  unfold readFile, operate.
  rewrite (start_connected os st (ReadFile remotePath) nm r config Hget Hauth Hconn I).
  cbn [deadlineOf runTimed].
  set (conn := connOf st nm). set (op := ReadFile remotePath).
  assert (E2 : handle op conn
                 (advance op conn t2
                    (handle op conn
                       (advance op conn t1 (with_connected true newSession)) EvReady))
                 (EvSftp None) =
               mkSession Pending NoTimer true 0 Active "" ""
                         (Z.max (Z.max 0 t1) t2) None) by reflexivity.
  rewrite E2. clear E2.
  rewrite runTimed_app.
  destruct (chunks_accumulate remotePath conn chunks Hchunks
              0 "" (Z.max (Z.max 0 t1) t2)) as [nw E].
  fold op in E. rewrite E. clear E.
  destruct failure; cbn; auto.
Qed.

Lemma read_file_content_witness :
  promise (readFile sampleOs loaded "db1" "/etc/motd"
             [(10%Z, EvReady); (11%Z, EvSftp None);
              (20%Z, EvChunk "wel"); (21%Z, EvChunk "come"); (22%Z, EvEnd)] 22) =
  Resolved (FileContent "welcome").
Proof.
  refine (proj1 (read_file_content sampleOs loaded "db1" "/etc/motd" 3
                   (mkConnectConfig "192.168.1.11" (Some 22%Z) "admin" None (Some "secret"))
                   10 11 22 [(20%Z, EvChunk "wel"); (21%Z, EvChunk "come")] None 22
                   eq_refl eq_refl eq_refl _)).
  repeat constructor.
Defined.

(** X13.  [listDirectory] resolves with one entry for each entry of the
    remote directory, in the same order and under the same name, with
    the size as reported, the modification time turned from seconds into
    milliseconds, and the type "directory" for a directory, "file" for
    any other entry that is a file, "other" for the rest; an error of the
    enumeration rejects the call.  Either way the client was ended
    once. *)
Theorem list_directory_entries (os : Os) (st : Manager) (nm remotePath : string)
    (r : Ref) (config : ConnectConfig)
    (t1 t2 t3 : Z) (res : string + list RawEntry) (until : Z) :
  getConnection st nm = Some r ->
  getConnectConfig os (heap st r) = Ok config ->
  connectThrows os config = None ->
  let s := listDirectory os st nm remotePath
             [(t1, EvReady); (t2, EvSftp None); (t3, EvReaddir res)] until in
  ends s = 1 /\
  match res with
  | inl err => promise s = Rejected (LibraryError err)
  | inr list =>
      exists entries,
        promise s = Resolved (Listing entries) /\
        map entry_name entries = map filename list /\
        map entry_size entries = map size list /\
        map entry_modifyTime entries = map (fun item => (mtime item * 1000)%Z) list /\
        map entry_type entries =
          map (fun item => if isDirectory item then "directory"
                           else if isFile item then "file" else "other") list
  end.
Proof.
  intros Hget Hauth Hconn. cbn zeta.
  unfold listDirectory, operate.
  rewrite (start_connected os st (ListDirectory remotePath) nm r config Hget Hauth Hconn I).
  cbn [deadlineOf runTimed]. destruct res as [err|list]; cbn.
  - auto.
  - split; [reflexivity|]. exists (map toDirEntry list).
    rewrite !map_map. cbn. auto.
Qed.

Lemma list_directory_entries_witness :
  exists entries,
    promise (listDirectory sampleOs loaded "db1" "/var"
               [(1%Z, EvReady); (2%Z, EvSftp None);
                (3%Z, EvReaddir (inr [mkRaw "log" true false 4096 1700000000;
                                      mkRaw "swap" false false 0 1700000001]))] 3) =
      Resolved (Listing entries) /\
    map entry_name entries = ["log"; "swap"] /\
    map entry_type entries = ["directory"; "other"] /\
    map entry_modifyTime entries = [1700000000000%Z; 1700000001000%Z].
Proof.
  destruct (list_directory_entries sampleOs loaded "db1" "/var" 3
              (mkConnectConfig "192.168.1.11" (Some 22%Z) "admin" None (Some "secret"))
              1 2 3 (inr [mkRaw "log" true false 4096 1700000000;
                          mkRaw "swap" false false 0 1700000001]) 3
              eq_refl eq_refl eq_refl) as (_ & entries & Hp & Hn & _ & Ht & Hty).
  exists entries. split; [exact Hp|]. split; [exact Hn|]. split; [exact Hty|exact Ht].
Defined.

(* ================================================================== *)
(** ** Promises, watchdogs and credentials *)

Lemma handle_final op conn s ev :
  promise s <> Pending ->
  promise (handle op conn s ev) = promise s /\
  settledAt (handle op conn s ev) = settledAt s.
Proof.
  intros Hp. destruct op; session_cases s; try contradiction;
    event_cases ev; split; reflexivity.
Qed.

Lemma advance_final op conn t s :
  promise s <> Pending ->
  promise (advance op conn t s) = promise s /\
  settledAt (advance op conn t s) = settledAt s.
Proof.
  intros Hp. unfold advance.
  destruct op; session_cases s; try contradiction; cbn;
    try (destruct (deadline <=? t)%Z); split; reflexivity.
Qed.

Lemma runTimed_final op conn events :
  forall s, promise s <> Pending ->
    promise (runTimed op conn s events) = promise s /\
    settledAt (runTimed op conn s events) = settledAt s.
Proof.
  induction events as [|[t ev] events IH]; intros s Hp; [split; reflexivity|].
  cbn [runTimed].
  destruct (advance_final op conn t s Hp) as [Ha Ha'].
  assert (Hp1 : promise (advance op conn t s) <> Pending) by now rewrite Ha.
  destruct (handle_final op conn _ ev Hp1) as [Hh Hh'].
  assert (Hp2 : promise (handle op conn (advance op conn t s) ev) <> Pending)
    by now rewrite Hh, Ha.
  destruct (IH _ Hp2) as [Hr Hr'].
  rewrite Hr, Hr', Hh, Hh', Ha, Ha'. split; reflexivity.
Qed.

(** X14.  The result of an operation is final: once its promise has
    settled, nothing the transport delivers afterwards and no watchdog
    that fires afterwards changes the value or error it settled with, or
    the time at which it settled. *)
Theorem result_is_final (os : Os) (st : Manager) (op : Op) (nm : string)
    (events later : list (Z * Event)) (until : Z) :
  let conn := connOf st nm in
  let s1 := runTimed op conn (start os st op nm) events in
  promise s1 <> Pending ->
  promise (operate os st op nm (events ++ later) until) = promise s1 /\
  settledAt (operate os st op nm (events ++ later) until) = settledAt s1.
Proof.
  cbn zeta. intros Hp. unfold operate. rewrite runTimed_app.
  destruct (runTimed_final op (connOf st nm) later _ Hp) as [Hr Hr'].
  assert (Hp' : promise (runTimed op (connOf st nm)
                           (runTimed op (connOf st nm) (start os st op nm) events) later)
                <> Pending) by now rewrite Hr.
  destruct (advance_final op (connOf st nm) until _ Hp') as [Ha Ha'].
  rewrite Ha, Ha', Hr, Hr'. split; reflexivity.
Qed.

(** A command that has completed is not undone by an error that the
    transport raises later, nor by the watchdog. *)
Lemma result_is_final_witness :
  promise (operate sampleOs loaded (RunCommand "uptime" 100) "db1"
             ([(30%Z, EvReady); (35%Z, EvExec None); (51%Z, EvClose None)] ++
              [(60%Z, EvError "read ECONNRESET")]) 200) =
  Resolved (CommandResult "" "" 0).
Proof.
  refine (eq_trans
            (proj1 (result_is_final sampleOs loaded (RunCommand "uptime" 100) "db1"
                      [(30%Z, EvReady); (35%Z, EvExec None); (51%Z, EvClose None)]
                      [(60%Z, EvError "read ECONNRESET")] 200 _)) _).
  - discriminate.
  - reflexivity.
Defined.

Lemma handle_noTimer op conn s ev :
  deadlineOf op = None -> timer s = NoTimer -> timer (handle op conn s ev) = NoTimer.
Proof.
  intros Hd Ht. destruct op; try discriminate Hd;
    session_cases s; try discriminate Ht; event_cases ev; reflexivity.
Qed.

Lemma advance_noTimer op conn t s :
  timer s = NoTimer -> advance op conn t s = with_now (Z.max (now s) t) s.
Proof. intros Ht. apply advance_unarmed. rewrite Ht. discriminate. Qed.

Lemma runTimed_noTimer op conn events :
  deadlineOf op = None ->
  forall s, timer s = NoTimer -> timer (runTimed op conn s events) = NoTimer.
Proof.
  intros Hd. induction events as [|[t ev] events IH]; intros s Ht; [exact Ht|].
  cbn [runTimed]. apply IH, handle_noTimer; [exact Hd|].
  rewrite advance_noTimer by exact Ht. now destruct s.
Qed.

Lemma start_noTimer os st op nm :
  deadlineOf op = None -> timer (start os st op nm) = NoTimer.
Proof.
  intros Hd. unfold start. destruct (getConnection st nm) as [r|]; [|reflexivity].
  destruct op; try discriminate Hd;
    try (destruct (negb (existsSync os localPath)); [reflexivity|]);
    unfold openSession;
    destruct (getConnectConfig os (heap st r)) as [config|e];
    try destruct (connectThrows os config); reflexivity.
Qed.

(** X15.  The four SFTP operations have no watchdog: [uploadFile],
    [downloadFile], [readFile] and [listDirectory] never arm a timer, so
    the passing of time alone never settles them; a call whose transport
    stays silent is as pending after any wait as it was at the start. *)
Theorem transfers_have_no_timeout (os : Os) (st : Manager) (op : Op) (nm : string)
    (events : list (Z * Event)) (until : Z) :
  deadlineOf op = None ->
  timer (operate os st op nm events until) = NoTimer /\
  promise (operate os st op nm events until) =
    promise (runTimed op (connOf st nm) (start os st op nm) events) /\
  promise (operate os st op nm [] until) = promise (start os st op nm).
Proof.
  intros Hd. unfold operate.
  pose proof (runTimed_noTimer op (connOf st nm) events Hd _ (start_noTimer os st op nm Hd))
    as Ht.
  rewrite (advance_noTimer op (connOf st nm) until _ Ht).
  cbn [runTimed]. rewrite (advance_noTimer op (connOf st nm) until _ (start_noTimer os st op nm Hd)).
  split; [|split].
  - now destruct (runTimed op (connOf st nm) (start os st op nm) events).
  - now destruct (runTimed op (connOf st nm) (start os st op nm) events).
  - now destruct (start os st op nm).
Qed.

(** A download from a host that never answers is still pending after a
    day. *)
Lemma transfers_have_no_timeout_witness :
  promise (downloadFile sampleOs loaded "db1" "/var/log/syslog" "/tmp/syslog" [] 86400000) =
  Pending.
Proof.
  exact (proj2 (proj2 (transfers_have_no_timeout sampleOs loaded
                         (DownloadFile "/var/log/syslog" "/tmp/syslog") "db1" []
                         86400000 eq_refl))).
Defined.

Lemma handle_probing conn s ev :
  probing conn s -> probing conn (handle TestConnection conn s ev).
Proof.
  unfold probing. intros H.
  destruct s as [pr tm cn en ph o eo nw sa].
  destruct pr as [|v|e]; [| |cbn in H; contradiction].
  - destruct tm, cn, ph; event_cases ev; cbn in *;
      try exact I; try exact H;
      intuition (try discriminate; try congruence).
  - destruct v as [| | | |ok msg [l|]]; try (cbn in H; contradiction);
      destruct ok; try (cbn in H; contradiction);
      destruct tm, cn, ph; event_cases ev; cbn in *;
      try exact I; try exact H;
      intuition (try discriminate; try congruence).
Qed.

Lemma advance_probing conn t s :
  probing conn s -> probing conn (advance TestConnection conn t s).
Proof.
  unfold probing, advance. intros H.
  destruct s as [pr tm cn en ph o eo nw sa]; cbn in *.
  destruct pr as [|v|e]; cbn in *.
  - destruct H as [-> ->]. cbn.
    destruct (10000 <=? t)%Z; cbn; [exact I|]. split; reflexivity.
  - destruct tm; cbn; try exact H.
    destruct (deadline <=? t)%Z; cbn; [|exact H].
    destruct v as [| | | |ok msg [l|]]; try contradiction; destruct ok; try contradiction;
      try exact I.
    destruct H as (_ & Ht & _). discriminate Ht.
  - contradiction.
Qed.

Lemma runTimed_probing conn events :
  forall s, probing conn s -> probing conn (runTimed TestConnection conn s events).
Proof.
  induction events as [|[t ev] events IH]; intros s H; [exact H|].
  cbn [runTimed]. now apply IH, handle_probing, advance_probing.
Qed.

Lemma start_probing os st nm r conn :
  getConnection st nm = Some r -> probing conn (start os st TestConnection nm).
Proof.
  intros Hr. unfold start. rewrite Hr. unfold openSession, probing.
  destruct (getConnectConfig os (heap st r)) as [config|e];
    try destruct (connectThrows os config); cbn; try exact I.
  split; reflexivity.
Qed.

(** X16.  A report of [testConnection] carries a latency exactly when it
    reports success.  A success is reported by the handler of 'ready'
    alone: its message names the host and the port of the record, the
    watchdog was cleared, not fired, and the client was ended exactly
    once.  A report of failure carries no latency. *)
Theorem test_connection_latency (os : Os) (st : Manager) (nm : string) (r : Ref)
    (events : list (Z * Event)) (until : Z) (ok : bool) (msg : string)
    (latencyMs : option Z) :
  getConnection st nm = Some r ->
  promise (testConnection os st nm events until) = Resolved (TestResult ok msg latencyMs) ->
  if ok then
    (exists l, latencyMs = Some l) /\
    msg = "Connected successfully to " ++ host (heap st r) ++ ":" ++
          showPort (port (heap st r)) /\
    timer (testConnection os st nm events until) = Cleared /\
    ends (testConnection os st nm events until) = 1
  else latencyMs = None.
Proof.
  intros Hr Hp.
  assert (H : probing (heap st r) (testConnection os st nm events until)).
  { unfold testConnection, operate.
    assert (Hc : connOf st nm = heap st r) by (unfold connOf; now rewrite Hr).
    rewrite Hc.
    apply advance_probing, runTimed_probing, (start_probing os st nm r _ Hr). }
  unfold probing in H. rewrite Hp in H.
  destruct ok, latencyMs as [l|]; try contradiction; [|reflexivity].
  destruct H as (Hm & Ht & He & _). eauto.
Qed.

Lemma test_connection_latency_witness :
  (exists l, Some 42%Z = Some l) /\
  "Connected successfully to 192.168.1.11:22" =
    "Connected successfully to " ++ host (heap loaded 3) ++ ":" ++
    showPort (port (heap loaded 3)) /\
  timer (testConnection sampleOs loaded "db1" [(42%Z, EvReady)] 20000) = Cleared /\
  ends (testConnection sampleOs loaded "db1" [(42%Z, EvReady)] 20000) = 1.
Proof.
  exact (test_connection_latency sampleOs loaded "db1" 3 [(42%Z, EvReady)] 20000
           true "Connected successfully to 192.168.1.11:22" (Some 42%Z)
           eq_refl eq_refl).
Defined.

(** X17.  A configuration that [getConnectConfig] returns names the
    host, port and user of the record it was made from and carries
    exactly one credential: either a private key and no password, or no
    private key and the non-empty password of the record. *)
Theorem connect_config_one_credential (os : Os) (conn : SSHConnection)
    (config : ConnectConfig) :
  getConnectConfig os conn = Ok config ->
  config_host config = host conn /\
  config_port config = port conn /\
  config_username config = username conn /\
  ((exists key, config_privateKey config = Some key /\ config_password config = None) \/
   (config_privateKey config = None /\
    exists pw, config_password config = Some pw /\ password conn = Some pw /\ pw <> "")).
Proof.
  unfold getConnectConfig.
  destruct (truthy (privateKeyPath conn)).
  - destruct (negb (existsSync os _)); [discriminate|].
    destruct (readFileSync os _) as [key|e]; [|discriminate].
    intros [= <-]. cbn. eauto 8.
  - destruct (truthy (password conn)) eqn:Epw.
    + intros [= <-]. cbn. repeat split. right. split; [reflexivity|].
      destruct (password conn) as [pw|]; [|discriminate].
      exists pw. repeat split. intros ->. discriminate.
    + destruct (probeKeys os (defaultKeys os)) as [[key|]|e]; try discriminate.
      intros [= <-]. cbn. eauto 8.
Qed.

Lemma connect_config_one_credential_witness :
  config_host (mkConnectConfig "192.168.1.11" (Some 22%Z) "admin" None (Some "secret")) =
    host (heap loaded 3).
Proof.
  exact (proj1 (connect_config_one_credential sampleOs (heap loaded 3)
                  (mkConnectConfig "192.168.1.11" (Some 22%Z) "admin" None (Some "secret"))
                  eq_refl)).
Defined.

(* ================================================================== *)
(** ** The configuration file *)

Lemma filter_named_twice nm (l : list ConnectionConfig) :
  filter (named nm) (filter (fun c => negb (named nm c)) l) = [].
Proof.
  induction l as [|c l IH]; [reflexivity|]. cbn [filter].
  destruct (named nm c) eqn:E; cbn [negb filter]; [exact IH|]. now rewrite E.
Qed.

Lemma filter_others_twice nm (l : list ConnectionConfig) :
  filter (fun c => negb (named nm c)) (filter (fun c => negb (named nm c)) l) =
  filter (fun c => negb (named nm c)) l.
Proof.
  induction l as [|c l IH]; [reflexivity|]. cbn [filter].
  destruct (named nm c) eqn:E; cbn [negb filter]; [exact IH|]. rewrite E. cbn [negb].
  now rewrite IH.
Qed.

Lemma loadConfig_stored config :
  loadConfig (stored config) =
  (mkConfig (firstSome (defaultPrivateKeyPath config) (Some "~/.ssh/id_ed25519"))
            (mkBinaryLane (enabled (binarylane config)) (apiToken (binarylane config))
                          (defaultUsername (binarylane config))
                          (firstSome (bl_defaultPrivateKeyPath (binarylane config))
                                     (Some "~/.ssh/id_ed25519")))
            (cfg_connections config),
   stored config).
Proof.
  destruct config as [d [en tok user key] conns]. cbn.
  destruct tok; reflexivity.
Qed.

Lemma loadConfig_keys disk :
  exists d k,
    defaultPrivateKeyPath (fst (loadConfig disk)) = Some d /\
    bl_defaultPrivateKeyPath (binarylane (fst (loadConfig disk))) = Some k.
Proof.
  destruct disk as [| |[d [[en tok user key]|] conns]]; cbn;
    repeat match goal with
           | |- context [firstSome ?x _] => destruct x; cbn
           end; eauto.
Qed.

(** X18.  Saving a configuration and loading it again gives back its
    connections, its discovery switch, its API token and its default
    user unchanged, and does not touch the file again; a default
    private-key path that was absent comes back as the built-in default,
    so the file cannot express the absence of that path.  A
    configuration that was itself obtained by loading survives the round
    trip exactly. *)
Theorem save_then_load (config : SSHMCPConfig) (disk disk0 : ConfigFile) :
  let reloaded := fst (loadConfig (saveConfig config disk)) in
  cfg_connections reloaded = cfg_connections config /\
  enabled (binarylane reloaded) = enabled (binarylane config) /\
  apiToken (binarylane reloaded) = apiToken (binarylane config) /\
  defaultUsername (binarylane reloaded) = defaultUsername (binarylane config) /\
  defaultPrivateKeyPath reloaded =
    firstSome (defaultPrivateKeyPath config) (Some "~/.ssh/id_ed25519") /\
  bl_defaultPrivateKeyPath (binarylane reloaded) =
    firstSome (bl_defaultPrivateKeyPath (binarylane config)) (Some "~/.ssh/id_ed25519") /\
  snd (loadConfig (saveConfig config disk)) = saveConfig config disk /\
  fst (loadConfig (saveConfig (fst (loadConfig disk0)) disk)) = fst (loadConfig disk0).
Proof.
  cbn zeta. unfold saveConfig. rewrite !loadConfig_stored. cbn [fst snd].
  repeat (split; [reflexivity|]).
  destruct (loadConfig_keys disk0) as (d & k & Hd & Hk).
  rewrite Hd, Hk. cbn [firstSome].
  destruct (fst (loadConfig disk0)) as [d0 [en tok user key] conns]. cbn in *.
  now subst.
Qed.

(** X19.  [addConnectionToConfig] leaves exactly one connection of the
    new name in the configuration, the one given, placed last; the
    connections of other names are kept, in their order; at most one
    connection is added; and the file then holds these connections. *)
Theorem add_to_config (config : SSHMCPConfig) (conn : ConnectionConfig) (disk : ConfigFile) :
  let updated := fst (addConnectionToConfig config conn disk) in
  let others := fun c => negb (named (cc_name conn) c) in
  filter (named (cc_name conn)) (cfg_connections updated) = [conn] /\
  filter others (cfg_connections updated) = filter others (cfg_connections config) /\
  cfg_connections updated = (filter others (cfg_connections config) ++ [conn])%list /\
  length (cfg_connections updated) <= S (length (cfg_connections config)) /\
  cfg_connections (fst (loadConfig (snd (addConnectionToConfig config conn disk)))) =
    cfg_connections updated /\
  binarylane updated = binarylane config.
Proof.
  cbn zeta. unfold addConnectionToConfig. cbn [fst snd cfg_connections binarylane].
  assert (Hself : named (cc_name conn) conn = true) by apply String.eqb_refl.
  split; [|split; [|split; [|split; [|split]]]].
  - rewrite filter_app, filter_named_twice. cbn. now rewrite Hself.
  - rewrite filter_app, filter_others_twice. cbn. rewrite Hself. cbn.
    now rewrite app_nil_r.
  - reflexivity.
  - rewrite length_app. cbn.
    pose proof (filter_length_le (fun c => negb (named (cc_name conn) c))
                  (cfg_connections config)). lia.
  - unfold saveConfig. now rewrite loadConfig_stored.
  - reflexivity.
Qed.

(** X20.  Removing from the configuration the name of a connection that
    was just added succeeds and leaves the connections of the other
    names, those the configuration had before the addition; removing the
    same name once more finds nothing and leaves the file as it is. *)
Theorem add_then_remove_config (config : SSHMCPConfig) (conn : ConnectionConfig)
    (disk : ConfigFile) :
  let added := addConnectionToConfig config conn disk in
  let removed := removeConnectionFromConfig (fst added) (cc_name conn) (snd added) in
  let others := fun c => negb (named (cc_name conn) c) in
  (exists updated,
     fst removed = Some updated /\
     cfg_connections updated = filter others (cfg_connections config) /\
     snd removed = stored updated /\
     removeConnectionFromConfig updated (cc_name conn) (snd removed) =
       (None, snd removed)).
Proof.
  cbn zeta. unfold addConnectionToConfig, removeConnectionFromConfig.
  cbn [fst snd cfg_connections defaultPrivateKeyPath binarylane].
  assert (Hself : named (cc_name conn) conn = true) by apply String.eqb_refl.
  rewrite existsb_app. cbn [existsb]. rewrite Hself, orb_true_r. cbn [negb fst snd].
  eexists. split; [reflexivity|]. cbn [cfg_connections].
  rewrite filter_app, filter_others_twice. cbn [filter]. rewrite Hself. cbn [negb].
  rewrite app_nil_r. split; [reflexivity|]. split; [reflexivity|].
  cbn [cfg_connections].
  assert (Hno : existsb (named (cc_name conn))
                  (filter (fun c => negb (named (cc_name conn) c)) (cfg_connections config))
                = false).
  { induction (cfg_connections config) as [|c l IH]; [reflexivity|]. cbn [filter].
    destruct (named (cc_name conn) c) eqn:E; cbn [negb]; [exact IH|].
    cbn [existsb]. now rewrite E. }
  rewrite Hno. reflexivity.
Qed.

Lemma redactSecret_idem (secret : option string) :
  redactSecret (redactSecret secret) = redactSecret secret.
Proof. unfold redactSecret. now destruct (truthy secret). Qed.

(** X21.  Redacting a redacted configuration changes nothing more, and a
    redaction has as many connections as the configuration, under the
    same names in the same order. *)
Theorem redaction_idempotent (config : SSHMCPConfig) :
  redactConfig (redactConfig config) = redactConfig config /\
  map cc_name (cfg_connections (redactConfig config)) =
    map cc_name (cfg_connections config) /\
  length (cfg_connections (redactConfig config)) = length (cfg_connections config).
Proof.
  split; [|split].
  - unfold redactConfig. cbn. rewrite redactSecret_idem. f_equal.
    rewrite map_map. apply map_ext. intros c. cbn. now rewrite redactSecret_idem.
  - unfold redactConfig. cbn. rewrite map_map. reflexivity.
  - unfold redactConfig. cbn. apply length_map.
Qed.

(* ================================================================== *)
(** ** Auto-discovery *)

Lemma eligible_find server :
  eligible server = true <->
  server_status server = "active" /\
  exists publicIp, find (fun n => network_type n =? "public") (networks_v4 server)
                   = Some publicIp.
Proof.
  unfold eligible. rewrite andb_true_iff, String.eqb_eq. split.
  - intros [Hs Hex]. split; [assumption|].
    destruct (find _ (networks_v4 server)) as [n|] eqn:E; [eauto|].
    apply existsb_exists in Hex as [n [Hin Hn]].
    now rewrite (find_none _ _ E n Hin) in Hn.
  - intros [Hs [n Hn]]. split; [assumption|].
    apply existsb_exists. exists n. now apply find_some in Hn.
Qed.

Lemma pushServers_filter user key servers :
  forall connections,
    pushServers user key servers connections =
    (connections ++ map (serverConnection user key) (filter eligible servers))%list.
Proof.
  induction servers as [|server servers IH]; intros connections; cbn [pushServers filter].
  - cbn. now rewrite app_nil_r.
  - unfold eligible at 1.
    destruct (server_status server =? "active") eqn:Es; cbn [negb andb].
    + destruct (find _ (networks_v4 server)) as [n|] eqn:Ef.
      * assert (Hex : existsb (fun n => network_type n =? "public") (networks_v4 server)
                      = true)
          by (apply existsb_exists; exists n; now apply find_some in Ef).
        assert (Hsc : serverConnection user key server =
                      mkConn (server_name server) (ip_address n) (Some 22%Z) user key None
                             (Some SrcBinarylane))
          by (unfold serverConnection; now rewrite Ef).
        rewrite Hex, IH, <- app_assoc. cbn [map app]. now rewrite Hsc.
      * assert (Hex : existsb (fun n => network_type n =? "public") (networks_v4 server)
                      = false).
        { destruct (existsb _ (networks_v4 server)) eqn:E; [|reflexivity].
          apply existsb_exists in E as [n [Hin Hn]].
          now rewrite (find_none _ _ Ef n Hin) in Hn. }
        rewrite Hex. apply IH.
    + apply IH.
Qed.

Lemma discoverLoop_pages user key api :
  forall connections,
    match pagesRead api with
    | Some servers =>
        discoverLoop user key api connections =
        inr (connections ++ map (serverConnection user key) (filter eligible servers))%list
    | None => exists e, discoverLoop user key api connections = inl e
    end.
Proof.
  induction api as [msg|status text|servers next following IH]; intros connections;
    cbn [pagesRead discoverLoop]; eauto.
  rewrite pushServers_filter. destruct (truthy next); [|reflexivity].
  specialize (IH (connections ++ map (serverConnection user key) (filter eligible servers))%list).
  destruct (pagesRead following) as [more|]; cbn [option_map]; [|exact IH].
  rewrite IH, filter_app, map_app, app_assoc. reflexivity.
Qed.


Lemma discovery_fails_iff api apiToken user key :
  (exists e, discoverBinaryLaneServers api apiToken user key = inl e) <->
  pagesRead (api apiToken) = None.
Proof.
  unfold discoverBinaryLaneServers.
  pose proof (discoverLoop_pages user key (api apiToken) []) as Hp.
  destruct (pagesRead (api apiToken)) as [servers|].
  - rewrite Hp. split; [intros [e He]; discriminate|discriminate].
  - split; [reflexivity|intros _; exact Hp].
Qed.

(** X22.  When the discovery succeeds, it returns one connection for
    each server, over all the pages it read and in their order, that is
    active and has a public IPv4 address, and for no other server; the
    connection has the name of the server, its first public address as
    host, port 22, the default user and key path it was given, no
    password, and the discovery as its source. *)
Theorem discovered_connections (api : string -> Api) (apiToken user : string)
    (key : option string) (found : list SSHConnection) :
  discoverBinaryLaneServers api apiToken user key = inr found ->
  exists servers,
    pagesRead (api apiToken) = Some servers /\
    found = map (serverConnection user key) (filter eligible servers) /\
    map name found = map server_name (filter eligible servers) /\
    Forall (fun c => port c = Some 22%Z /\ username c = user /\ privateKeyPath c = key /\
                     password c = None /\ source c = Some SrcBinarylane) found /\
    Forall (fun server => server_status server = "active" /\
                          exists publicIp,
                            find (fun n => network_type n =? "public") (networks_v4 server)
                            = Some publicIp /\
                            host (serverConnection user key server) = ip_address publicIp)
           (filter eligible servers).
Proof.
  unfold discoverBinaryLaneServers. intros H.
  pose proof (discoverLoop_pages user key (api apiToken) []) as Hp.
  destruct (pagesRead (api apiToken)) as [servers|].
  - rewrite Hp in H. injection H as <-. cbn [app]. exists servers.
    split; [reflexivity|]. split; [reflexivity|]. split; [now rewrite map_map|].
    split.
    + apply Forall_forall. intros c Hc. apply in_map_iff in Hc as [s [<- _]].
      cbn. auto.
    + apply Forall_forall. intros s Hs. apply filter_In in Hs as [_ He].
      apply eligible_find in He as [Hst [n Hn]]. split; [assumption|].
      exists n. split; [assumption|]. unfold serverConnection. cbn. now rewrite Hn.
  - destruct Hp as [e He]. congruence.
Qed.

Lemma discovered_connections_witness :
  exists servers,
    pagesRead (sampleApi "bl-token") = Some servers /\
    map name [mkConn "db1" "203.0.113.7" (Some 22%Z) "root" None None (Some SrcBinarylane);
              mkConn "cache" "203.0.113.9" (Some 22%Z) "root" None None (Some SrcBinarylane)]
    = map server_name (filter eligible servers).
Proof.
  destruct (discovered_connections sampleApi "bl-token" "root" None _ eq_refl)
    as (servers & Hp & _ & Hn & _).
  exists servers. split; [exact Hp|exact Hn].
Defined.

(** X23.  The discovery fails exactly when one of the requests it makes
    fails or is answered with an error status, on whichever page; it
    then returns no connection at all, also not those of the pages it
    had read before. *)
Theorem discovery_fails_whole (api : string -> Api) (apiToken user : string)
    (key : option string) :
  (exists e, discoverBinaryLaneServers api apiToken user key = inl e) <->
  pagesRead (api apiToken) = None.
Proof. apply discovery_fails_iff. Qed.

Example discovery_second_page_fails :
  discoverBinaryLaneServers
    (fun _ => Page [mkServer 1 "db1" "active" [mkNetwork "203.0.113.7" "public"]]
                   (Some "page-2") (NotOk 503 "Service Unavailable"))
    "bl-token" "root" None
  = inl (ApiError 503 "Service Unavailable").
Proof. reflexivity. Qed.

(* ================================================================== *)
(** ** [reloadConnections] *)

Lemma find_app_firstSome {A} (p : A -> bool) (l1 l2 : list A) :
  find p (l1 ++ l2) = firstSome (find p l1) (find p l2).
Proof.
  induction l1 as [|a l1 IH]; [reflexivity|]. cbn [app find].
  destruct (p a); [reflexivity|exact IH].
Qed.

Lemma find_seq_allocate (p : SSHConnection -> bool) (objects : list SSHConnection) :
  forall pre,
    option_map (allocate (pre ++ objects))
      (find (fun r => p (allocate (pre ++ objects) r)) (seq (length pre) (length objects)))
    = find p objects.
Proof.
  induction objects as [|c objects IH]; intros pre; [reflexivity|].
  cbn [length seq find].
  assert (Hc : allocate (pre ++ c :: objects) (length pre) = c).
  { unfold allocate. rewrite app_nth2 by lia. now rewrite Nat.sub_diag. }
  rewrite Hc. destruct (p c); [cbn; now rewrite Hc|].
  specialize (IH (pre ++ [c])%list).
  rewrite <- app_assoc, length_app in IH. cbn [app length] in IH.
  rewrite Nat.add_1_r in IH. exact IH.
Qed.

Lemma resolved_of_merge home sources st nm :
  resolved (loadConnections home sources st) nm =
  option_map (fun r => acceptUpdate home (heap st r))
    (find (fun r => wellFormed (heap st r) && (name (heap st r) =? nm)) (concat sources)).
Proof.
  destruct (loadConnections_accepted home sources st) as (Hc & Hh & _).
  unfold resolved, getConnection.
  pose proof (map_get_In (connections (loadConnections home sources st)) nm) as Hin.
  rewrite Hc in *. rewrite get_accepted in * by reflexivity.
  destruct (find _ (concat sources)) as [r|]; [|reflexivity].
  cbn [option_map]. f_equal. rewrite Hh.
  specialize (Hin r eq_refl). apply in_map_iff in Hin as [r0 [E Hacc]].
  unfold entry in E. injection E as _ ->.
  now rewrite (proj2 (memRef_In _ _) Hacc).
Qed.

Lemma three_sources (s1 s2 s3 : list SSHConnection) :
  concat [seq 0 (length s1); seq (length s1) (length s2);
          seq (length s1 + length s2) (length s3)] =
  seq 0 (length (s1 ++ s2 ++ s3)).
Proof.
  cbn [concat]. rewrite app_nil_r, !length_app, !seq_app. cbn. reflexivity.
Qed.

(** The sources of a reload, in priority order, as one list. *)
Lemma reload_unfold home env w :
  let config := fst (loadConfig (disk w)) in
  let objects := (configConnections config ++ loadFromEnv (SSH_CONNECTIONS env) ++
                  fst (blConnections env config))%list in
  exists sources : list (list Ref),
    @concat Ref sources = seq 0 (length objects) /\
    fst (reloadConnections home env w) =
    mkWorld (snd (loadConfig (disk w)))
      (loadConnections home sources
         (mkManager (allocate objects) (connections (manager w)) (console (manager w)))).
Proof.
  cbn zeta. unfold reloadConnections.
  destruct (loadConfig (disk w)) as [config disk1]. cbn [fst snd].
  destruct (blConnections env config) as [s3 log]. cbn [fst].
  eexists. split; [exact (three_sources _ _ _)|reflexivity].
Qed.

Lemma reload_resolved home env w nm :
  let config := fst (loadConfig (disk w)) in
  resolved (manager (fst (reloadConnections home env w))) nm =
  option_map (acceptUpdate home)
    (firstValid nm (configConnections config ++ loadFromEnv (SSH_CONNECTIONS env) ++
                    fst (blConnections env config))).
Proof.
  cbn zeta. destruct (reload_unfold home env w) as (sources & Hs & ->).
  cbn [manager]. rewrite resolved_of_merge, Hs. cbn [heap].
  set (objects := (configConnections _ ++ _ ++ _)%list).
  pose proof (find_seq_allocate (fun c => wellFormed c && (name c =? nm)) objects []) as H.
  cbn [app length] in H. unfold firstValid. rewrite <- H.
  destruct (find (fun r : Ref => wellFormed (allocate objects r) &&
                                 (name (allocate objects r) =? nm))
                 (seq 0 (length objects))); reflexivity.
Qed.


(** On the sample world: web1 is only in the environment, db1 is in the
    environment and discovered, staging is in the file, cache is only
    discovered. *)
Example reload_sample :
  listConnections (manager (fst (reloadConnections "/home/u" sampleEnv sampleWorld))) =
  [ mkInfo "staging" "10.0.0.5" (Some 22%Z) "deploy" (Some SrcConfig);
    mkInfo "web1" "10.0.0.9" (Some 2222%Z) "admin" (Some SrcEnv);
    mkInfo "db1" "192.168.1.11" (Some 22%Z) "admin" (Some SrcEnv);
    mkInfo "cache" "203.0.113.9" (Some 22%Z) "root" (Some SrcBinarylane) ].
Proof. reflexivity. Qed.

Lemma loadConfig_again disk :
  loadConfig (snd (loadConfig disk)) = (fst (loadConfig disk), snd (loadConfig disk)).
Proof. destruct disk as [| |p]; reflexivity. Qed.

(** X25.  Reloading twice in a row, with the file, the environment and
    the service unchanged, lists what reloading once lists, whatever the
    home directory is: each reload builds its records anew from the
    sources, so nothing is expanded twice. *)
Theorem reload_idempotent (home : string) (env : Environment) (w : World) :
  let w1 := fst (reloadConnections home env w) in
  let w2 := fst (reloadConnections home env w1) in
  listConnections (manager w2) = listConnections (manager w1) /\
  connections (manager w2) = connections (manager w1) /\
  disk w2 = disk w1.
Proof.
  cbn zeta.
  destruct (reload_unfold home env (fst (reloadConnections home env w)))
    as (sources2 & Hs2 & E2).
  destruct (reload_unfold home env w) as (sources1 & Hs1 & E1).
  rewrite E2. clear E2. rewrite E1 in *. clear E1. cbn [disk manager] in *.
  rewrite loadConfig_again in *. cbn [fst snd] in *.
  split; [|split; [|reflexivity]].
  - rewrite !listing_of_merge. cbn [heap]. now rewrite Hs1, Hs2.
  - destruct (loadConnections_accepted home sources2
                (mkManager (allocate
                   (configConnections (fst (loadConfig (disk w))) ++
                    loadFromEnv (SSH_CONNECTIONS env) ++
                    fst (blConnections env (fst (loadConfig (disk w))))))
                   (connections (loadConnections home sources1
                      (mkManager (allocate
                         (configConnections (fst (loadConfig (disk w))) ++
                          loadFromEnv (SSH_CONNECTIONS env) ++
                          fst (blConnections env (fst (loadConfig (disk w))))))
                         (connections (manager w)) (console (manager w)))))
                   (console (loadConnections home sources1
                      (mkManager (allocate
                         (configConnections (fst (loadConfig (disk w))) ++
                          loadFromEnv (SSH_CONNECTIONS env) ++
                          fst (blConnections env (fst (loadConfig (disk w))))))
                         (connections (manager w)) (console (manager w)))))))
      as (Hc2 & _ & _).
    destruct (loadConnections_accepted home sources1
                (mkManager (allocate
                   (configConnections (fst (loadConfig (disk w))) ++
                    loadFromEnv (SSH_CONNECTIONS env) ++
                    fst (blConnections env (fst (loadConfig (disk w))))))
                   (connections (manager w)) (console (manager w))))
      as (Hc1 & _ & _).
    rewrite Hc2, Hc1. cbn [heap]. now rewrite Hs1, Hs2.
Qed.

(** X26.  A discovery that fails does not make the reload fail: the
    reload goes on with the file and the environment alone, and leaves
    the registry and the file as a service without servers would. *)
Theorem discovery_failure_not_fatal (home : string) (env : Environment) (w : World) :
  match tokenUsed env (fst (loadConfig (disk w))) with
  | Some token => pagesRead (binarylaneApi env token) = None
  | None => True
  end ->
  fst (reloadConnections home env w) = fst (reloadConnections home (with_api env noServers) w).
Proof.
  intros H. unfold reloadConnections.
  destruct (loadConfig (disk w)) as [config disk1]. cbn [fst] in H.
  assert (E : fst (blConnections env config) = fst (blConnections (with_api env noServers) config)).
  { unfold blConnections, tokenUsed in *. cbn [with_api BINARYLANE_API_TOKEN binarylaneApi].
    cbn zeta in *.
    destruct (orString (apiToken (binarylane config)) (BINARYLANE_API_TOKEN env))
      as [token|] eqn:Et; [|now rewrite andb_false_r].
    destruct (enabled (binarylane config) && truthy (Some token)) eqn:Eb; [|reflexivity].
    cbn [orElse].
    pose proof (proj2 (discovery_fails_iff (binarylaneApi env) token
                         (defaultUsername (binarylane config))
                         (bl_defaultPrivateKeyPath (binarylane config))) H) as [e He].
    rewrite He. reflexivity. }
  cbn [SSH_CONNECTIONS with_api].
  change (SSH_CONNECTIONS (with_api env noServers)) with (SSH_CONNECTIONS env).
  destruct (blConnections env config) as [s3 log].
  destruct (blConnections (with_api env noServers) config) as [s3' log'].
  cbn [fst] in *. now subst.
Qed.

Lemma discovery_failure_not_fatal_witness :
  fst (reloadConnections "/home/u" (with_api sampleEnv (fun _ => NotOk 500 "down")) sampleWorld)
  = fst (reloadConnections "/home/u"
           (with_api (with_api sampleEnv (fun _ => NotOk 500 "down")) noServers) sampleWorld).
Proof.
  exact (discovery_failure_not_fatal "/home/u"
           (with_api sampleEnv (fun _ => NotOk 500 "down")) sampleWorld eq_refl).
Defined.

(* ================================================================== *)
(** ** The handlers with the reload of the server *)


Lemma firstValid_others nm (l : list ConnectionConfig) :
  firstValid nm (configConnections
                   (mkConfig None (mkBinaryLane false None "" None)
                             (filter (fun c => negb (named nm c)) l))) = None.
Proof.
  unfold firstValid, configConnections. cbn [cfg_connections].
  induction l as [|c l IH]; [reflexivity|]. cbn [filter].
  destruct (named nm c) eqn:E; cbn [negb]; [exact IH|].
  cbn [map find name]. unfold named in E. rewrite E, andb_false_r. exact IH.
Qed.

Lemma configConnections_connections config config' :
  cfg_connections config = cfg_connections config' ->
  configConnections config = configConnections config'.
Proof. unfold configConnections. now intros ->. Qed.



(** X28.  When [remove_connection] with the reload of the server is
    called with a name that passes its schema and removes a manual
    connection, the configuration file no longer has the name, but the
    name resolves on to whatever the environment or, failing that, the
    discovery defines under it: the removal uncovers the connection of
    lower priority. *)
Theorem remove_uncovers_lower_priority (os : Os) (home : string) (env : Environment)
    (args : RemoveConnectionArgs) (nm : string) (w : World) :
  removeConnectionSchema args = Some nm ->
  existsb (named nm) (cfg_connections (fst (loadConfig (disk w)))) = true ->
  exists w' reply,
    remove_connection os (serverReload home env) args w = Some (w', reply) /\
    success reply = true /\
    existsb (named nm) (cfg_connections (fst (loadConfig (disk w')))) = false /\
    resolved (manager w') nm =
      option_map (acceptUpdate home)
        (firstSome (firstValid nm (loadFromEnv (SSH_CONNECTIONS env)))
                   (firstValid nm (fst (blConnections env (fst (loadConfig (disk w'))))))).
Proof.
  intros Hs Hex. unfold remove_connection, removeConnectionFromConfig. rewrite Hs.
  destruct (loadConfig (disk w)) as [config disk1]. cbn [fst] in Hex.
  rewrite Hex. cbn [negb]. unfold saveConfig, serverReload, reload.
  set (updated := mkConfig (defaultPrivateKeyPath config) (binarylane config)
                    (filter (fun c => negb (named nm c)) (cfg_connections config))).
  eexists. eexists. split; [reflexivity|]. split; [reflexivity|].
  assert (Hd : disk (fst (reloadConnections home env (mkWorld (stored updated) (manager w))))
               = stored updated).
  { destruct (reload_unfold home env (mkWorld (stored updated) (manager w)))
      as (sources & _ & ->).
    cbn [disk]. now rewrite loadConfig_stored. }
  assert (Hno : forall l, existsb (named nm) (filter (fun c => negb (named nm c)) l) = false).
  { induction l as [|c l IH]; [reflexivity|]. cbn [filter].
    destruct (named nm c) eqn:E; cbn [negb]; [exact IH|]. cbn [existsb]. now rewrite E. }
  split.
  - rewrite Hd, loadConfig_stored. cbn [fst cfg_connections]. apply Hno.
  - rewrite reload_resolved, Hd. cbn [disk]. rewrite loadConfig_stored. cbn [fst].
    unfold firstValid at 1. rewrite find_app_firstSome.
    pose proof (firstValid_others nm (cfg_connections config)) as Hnone.
    unfold firstValid, configConnections in *. cbn [cfg_connections updated] in *.
    rewrite Hnone. cbn [firstSome]. now rewrite find_app_firstSome.
Qed.

Lemma remove_uncovers_lower_priority_witness :
  exists w' reply,
    remove_connection sampleOs (serverReload "/home/u" sampleEnv) (mkRemoveArgs (Some "db1"))
      (mkWorld (stored (mkConfig None (mkBinaryLane false None "root" None)
                          [mkConnectionConfig "db1" "10.9.9.9" None "ops" None (Some "pw")]))
               sampleManager) = Some (w', reply) /\
    resolved (manager w') "db1" =
      Some (mkConn "db1" "192.168.1.11" (Some 22%Z) "admin" None (Some "secret")
                   (Some SrcEnv)).
Proof.
  destruct (remove_uncovers_lower_priority sampleOs "/home/u" sampleEnv
              (mkRemoveArgs (Some "db1")) "db1"
              (mkWorld (stored (mkConfig None (mkBinaryLane false None "root" None)
                                  [mkConnectionConfig "db1" "10.9.9.9" None "ops"
                                                      None (Some "pw")]))
                       sampleManager)
              eq_refl eq_refl) as (w' & reply & Ha & _ & _ & Hr).
  exists w', reply. split; [exact Ha|exact Hr].
Defined.

(* ================================================================== *)
(** ** [formatError] *)

Lemma prefix_occurs c k s : prefix (String c k) s = true -> occurs c s = true.
Proof.
  destruct s as [|a s]; cbn; [discriminate|].
  destruct (ascii_dec c a) as [->|]; [|discriminate].
  now rewrite Ascii.eqb_refl.
Qed.

Lemma includes_occurs c k s : includes s (String c k) = true -> occurs c s = true.
Proof.
  induction s as [|a s IH]; cbn [includes].
  - cbn. discriminate.
  - intros H. apply orb_true_iff in H as [H|H].
    + now apply prefix_occurs in H.
    + cbn [occurs]. rewrite (IH H). apply orb_true_r.
Qed.

Lemma occurs_app c s1 s2 : occurs c (s1 ++ s2) = occurs c s1 || occurs c s2.
Proof.
  induction s1 as [|a s1 IH]; cbn; [reflexivity|]. now rewrite IH, orb_assoc.
Qed.

Lemma occurs_digits (d : Decimal.uint) : occurs "E" (NilEmpty.string_of_uint d) = false.
Proof. induction d; cbn; auto. Qed.

Lemma occurs_showZ (n : Z) : occurs "E" (showZ n) = false.
Proof.
  unfold showZ, NilZero.string_of_int, NilZero.string_of_uint.
  destruct (Z.to_int n) as [d|d]; destruct d; cbn; try reflexivity; apply occurs_digits.
Qed.

(** X29.  The error with which [runCommand] rejects a command that
    outlived its timeout is presented by [formatError], whatever the
    timeout was, as a connection that timed out, with the advice to
    check that the server is reachable and not blocked by a firewall. *)
Theorem command_timeout_presented (T : Z) :
  formatError (ErrorWith (message (CommandTimedOut T))) =
  "Connection timed out. Check that the server is reachable and not blocked by firewall.".
Proof.
  unfold formatError. cbn [message].
  assert (H1 : includes ("Command timed out after " ++ showZ T ++ "ms") "ECONNREFUSED" = false).
  { destruct (includes _ "ECONNREFUSED") eqn:E; [|reflexivity].
    apply includes_occurs in E.
    rewrite !occurs_app, occurs_showZ in E. discriminate. }
  assert (H2 : includes ("Command timed out after " ++ showZ T ++ "ms") "timed out" = true).
  { cbn. reflexivity. }
  rewrite H1, H2, orb_true_r. reflexivity.
Qed.

(* ================================================================== *)
(** ** The order of a listing *)

Lemma accepted_keepFirst h refs :
  forall seen,
    map (fun r => name (h r)) (accepted h seen refs) =
    keepFirst seen (map (fun r => name (h r)) (filter (fun r => wellFormed (h r)) refs)).
Proof.
  induction refs as [|r refs IH]; intros seen; [reflexivity|].
  cbn [accepted filter]. destruct (wellFormed (h r)); cbn [andb]; [|apply IH].
  cbn [map keepFirst].
  destruct (existsb (String.eqb (name (h r))) seen); cbn [negb]; [apply IH|].
  cbn [map]. now rewrite IH.
Qed.

(** X30.  A merge lists the connections in the order in which their
    names first appear among the valid records of the sources, the
    sources taken in priority order and the records of each in their
    own order. *)
Theorem listing_order (home : string) (sources : list (list Ref)) (st : Manager) :
  map info_name (listConnections (loadConnections home sources st)) =
  keepFirst [] (map (fun r => name (heap st r))
                    (filter (fun r => wellFormed (heap st r)) (concat sources))).
Proof.
  rewrite listing_of_merge, map_map. cbn [info_name].
  rewrite (map_ext _ (fun r => name (heap st r)))
    by (intros r; apply acceptUpdate_name).
  apply accepted_keepFirst.
Qed.

Example listing_order_sample :
  map info_name (listConnections (loadConnections "/home/u" [[3; 2]; [1; 0]] sampleManager)) =
  ["db1"; "web1"].
Proof. reflexivity. Qed.
